(** * GeometryExplorer

    A shallow embedding of [src/components/GeometryExplorer/GeometryExplorer.tsx]:
    the catalog of shapes and its grouping by category, the three pieces of
    React state with their persistence in [localStorage], and the viewport
    (scene, camera, renderer, displayed mesh, render loop, resize handler,
    cleanup) as explicit state passing over a record of the component's refs
    and of the objects of the rendering library it owns.

    JavaScript numbers that the component computes with (rotation angles,
    container bounds, aspect ratio) are binary64 floats, as in the source.
    The numeric literals handed to the geometry constructors are never
    computed with; they are kept as exact decimal rationals so that catalog
    entries have a decidable equality. *)

From Stdlib Require Import Floats QArith.
From stdpp Require Import gmap strings list.

Set Warnings "-inexact-float".
Close Scope Q_scope.

(** ** The catalog *)

Module Catalog.

(** What a [create] closure of the catalog builds: the constructor of the
    rendering library and its arguments. *)
Inductive BufferGeometry : Type :=
| SphereGeometry (radius widthSegments heightSegments : Q)
| BoxGeometry (width height depth : Q)
| ConeGeometry (radius height radialSegments : Q)
| CylinderGeometry (radiusTop radiusBottom height radialSegments : Q)
| TorusGeometry (radius tube radialSegments tubularSegments : Q)
| TorusKnotGeometry (radius tube tubularSegments radialSegments : Q)
| DodecahedronGeometry (radius : Q)
| IcosahedronGeometry (radius : Q).

Record GeometryItem : Type := {
  name : string;
  category : string;
  description : string;
  create : BufferGeometry;
  color : string
}.

#[global] Instance Q_eq_dec : EqDecision Q.
Proof. solve_decision. Defined.

#[global] Instance BufferGeometry_eq_dec : EqDecision BufferGeometry.
Proof. solve_decision. Defined.

#[global] Instance GeometryItem_eq_dec : EqDecision GeometryItem.
Proof. solve_decision. Defined.

Definition geometries : list GeometryItem := [
  {| name := "Sphere"; category := "Primitivas"; description := "Esfera";
     create := SphereGeometry 1 32 16; color := "#FF6B6B" |};
  {| name := "Box"; category := "Primitivas"; description := "Caja";
     create := BoxGeometry 1.5 1.5 1.5; color := "#44aa88" |};
  {| name := "Cone"; category := "Primitivas"; description := "Cono";
     create := ConeGeometry 1 2 32; color := "#556270" |};
  {| name := "Cylinder"; category := "Primitivas"; description := "Cilindro";
     create := CylinderGeometry 1 1 2 32; color := "#C7F464" |};
  {| name := "Torus"; category := "Primitivas"; description := "Toro";
     create := TorusGeometry 1 0.4 16 100; color := "#FFA500" |};
  {| name := "TorusKnot"; category := "Primitivas";
     description := "Nudo Toroidal";
     create := TorusKnotGeometry 1 0.3 100 16; color := "#6A0572" |};
  {| name := "Dodecahedron"; category := "Platónicos";
     description := "Dodecaedro";
     create := DodecahedronGeometry 1; color := "#FF6F91" |};
  {| name := "Icosahedron"; category := "Platónicos";
     description := "Icosaedro";
     create := IcosahedronGeometry 1; color := "#00BFFF" |}
]%Q.

(** The accumulator of the [reduce] is a JavaScript object used as a map from
    category to array.  [Object.entries] lists its keys in insertion order
    (the categories are ordinary, non-numeric property names), so the object
    is an association list that grows at its end. *)
Definition Grouped : Type := list (string * list GeometryItem).

(** [acc[k]]: the array stored under [k], if any. *)
Fixpoint get (acc : Grouped) (k : string) : option (list GeometryItem) :=
  match acc with
  | [] => None
  | (k', v) :: rest => if String.eqb k' k then Some v else get rest k
  end.

(** [acc[k] = []] for a key that is not there yet: a new last entry. *)
Definition set_empty (acc : Grouped) (k : string) : Grouped := acc ++ [(k, [])].

(** [acc[k].push(geom)]: the array under [k] grows in place. *)
Fixpoint push (acc : Grouped) (k : string) (geom : GeometryItem) : Grouped :=
  match acc with
  | [] => []
  | (k', v) :: rest =>
      if String.eqb k' k then (k', v ++ [geom]) :: rest
      else (k', v) :: push rest k geom
  end.

(** The body of the reducer:
    [if (!acc[geom.category]) acc[geom.category] = [];
     acc[geom.category].push(geom); return acc]. *)
Definition reducer (acc : Grouped) (geom : GeometryItem) : Grouped :=
  let acc :=
    match get acc (category geom) with
    | None => set_empty acc (category geom)
    | Some _ => acc
    end in
  push acc (category geom) geom.

Definition categorize (l : list GeometryItem) : Grouped :=
  fold_left reducer l [].

Definition categorizedGeometries : Grouped := categorize geometries.

(** The groups concatenated in the order [Object.entries] lists them, which
    is the order in which the side panel renders the buttons. *)
Definition flatten (acc : Grouped) : list GeometryItem :=
  concat (map snd acc).

End Catalog.

Import Catalog.

(** ** Objects of the rendering library and of the page *)

(** A geometry resource: what it was built as and how many times [dispose()]
    was called on it.  It is live while that count is [0]. *)
Record Geometry : Type := {
  shape : BufferGeometry;
  g_disposed : nat
}.

(** The [MeshPhongMaterial].  [needsUpdate = true] asks for the material to
    be uploaded again; [m_needsUpdate] counts these requests. *)
Record Material : Type := {
  m_color : string;
  m_wireframe : bool;
  m_needsUpdate : nat;
  m_disposed : nat
}.

(** A mesh holds references (addresses in the heap below) to its geometry
    and material, and its Euler rotation. *)
Record Mesh : Type := {
  geometry : nat;
  material : nat;
  rotation_x : float;
  rotation_y : float
}.

Inductive Object3D : Type :=
| AmbientLight
| DirectionalLight
| AxesHelper
| GridHelper
| MeshObject.

Record Scene : Type := {
  background : Z;
  children : list Object3D
}.

Record PerspectiveCamera : Type := {
  fov : float;
  aspect : float;
  near : float;
  far : float;
  position : float * float * float;
  projectionUpdates : nat
}.

Record WebGLRenderer : Type := {
  domElement : nat;
  size : float * float;
  pixelRatio : float;
  r_disposed : nat;
  frames : nat
}.

(** The container [<main ref={mountRef}>]: the bounds it reports and the
    canvases appended to it. *)
Record HTMLDivElement : Type := {
  rect : float * float;
  childNodes : list nat
}.

(** The variables of the setup effect that its cleanup function closes over
    by reference to the heap.  The effect has an empty dependency list, so it
    runs once per mount: its [scene], [camera], [renderer] and [mesh] are the
    objects held by [sceneRef], [cameraRef], [rendererRef] and
    [currentMeshRef] for the whole mount, and are reached through the refs. *)
Record Closure : Type := {
  c_geometry : nat;
  c_material : nat
}.

(** Calls into the rendering library and the browser, in program order. *)
Inductive Call : Type :=
| geometry_new (g : nat) (b : BufferGeometry)
| geometry_dispose (g : nat)
| material_new (m : nat) (c : string) (wf : bool)
| material_color_set (m : nat) (c : string)
| material_wireframe_set (m : nat) (wf : bool)
| material_needsUpdate (m : nat)
| material_dispose (m : nat)
| mesh_geometry_set (g : nat)
| scene_add (o : Object3D)
| scene_clear
| camera_updateProjectionMatrix
| renderer_new (canvas : nat)
| renderer_setSize (width height : float)
| renderer_setPixelRatio (ratio : float)
| renderer_render
| renderer_dispose (canvas : nat)
| container_appendChild (canvas : nat)
| container_removeChild (canvas : nat)
| window_requestAnimationFrame (id : nat)
| window_cancelAnimationFrame (id : nat)
| window_addResizeListener
| window_removeResizeListener
| localStorage_setItem (key value : string).

(** ** The component's world *)

(** [useState] *)
Record State : Type := {
  wireframe : bool;
  autoRotate : bool;
  selectedGeometry : GeometryItem
}.

(** [useRef]; [None] is [null]. *)
Record Refs : Type := {
  mountRef : option HTMLDivElement;
  sceneRef : option Scene;
  cameraRef : option PerspectiveCamera;
  rendererRef : option WebGLRenderer;
  currentMeshRef : option Mesh;
  animRef : option nat;
  wireframeRef : bool;
  autoRotateRef : bool
}.

(** Geometries and materials live in a heap; an address is an index, and a
    new object is appended, so addresses are never reused. *)
Record Heap : Type := {
  geometryHeap : list Geometry;
  materialHeap : list Material
}.

(** What the component uses of [window]: the durable store, the pixel
    ratio, whether [handleResize] is registered, the animation frame
    requests that have neither run nor been cancelled, and the counters the
    browser draws fresh handles and canvases from. *)
Record Window : Type := {
  localStorage : gmap string string;
  devicePixelRatio : float;
  resizeListener : bool;
  pendingFrames : list nat;
  nextFrame : nat;
  canvases : nat
}.

Record World : Type := {
  state : State;
  refs : Refs;
  heap : Heap;
  window : Window;
  cleanup : option Closure;
  log : list Call
}.

Definition set_wireframe x (st : State) : State :=
  {| wireframe := x; autoRotate := autoRotate st;
     selectedGeometry := selectedGeometry st |}.
Definition set_autoRotate x (st : State) : State :=
  {| wireframe := wireframe st; autoRotate := x;
     selectedGeometry := selectedGeometry st |}.
Definition set_selectedGeometry x (st : State) : State :=
  {| wireframe := wireframe st; autoRotate := autoRotate st;
     selectedGeometry := x |}.

Definition set_mountRef x (r : Refs) : Refs :=
  {| mountRef := x; sceneRef := sceneRef r; cameraRef := cameraRef r;
     rendererRef := rendererRef r; currentMeshRef := currentMeshRef r;
     animRef := animRef r; wireframeRef := wireframeRef r;
     autoRotateRef := autoRotateRef r |}.
Definition set_sceneRef x (r : Refs) : Refs :=
  {| mountRef := mountRef r; sceneRef := x; cameraRef := cameraRef r;
     rendererRef := rendererRef r; currentMeshRef := currentMeshRef r;
     animRef := animRef r; wireframeRef := wireframeRef r;
     autoRotateRef := autoRotateRef r |}.
Definition set_cameraRef x (r : Refs) : Refs :=
  {| mountRef := mountRef r; sceneRef := sceneRef r; cameraRef := x;
     rendererRef := rendererRef r; currentMeshRef := currentMeshRef r;
     animRef := animRef r; wireframeRef := wireframeRef r;
     autoRotateRef := autoRotateRef r |}.
Definition set_rendererRef x (r : Refs) : Refs :=
  {| mountRef := mountRef r; sceneRef := sceneRef r; cameraRef := cameraRef r;
     rendererRef := x; currentMeshRef := currentMeshRef r;
     animRef := animRef r; wireframeRef := wireframeRef r;
     autoRotateRef := autoRotateRef r |}.
Definition set_currentMeshRef x (r : Refs) : Refs :=
  {| mountRef := mountRef r; sceneRef := sceneRef r; cameraRef := cameraRef r;
     rendererRef := rendererRef r; currentMeshRef := x; animRef := animRef r;
     wireframeRef := wireframeRef r; autoRotateRef := autoRotateRef r |}.
Definition set_animRef x (r : Refs) : Refs :=
  {| mountRef := mountRef r; sceneRef := sceneRef r; cameraRef := cameraRef r;
     rendererRef := rendererRef r; currentMeshRef := currentMeshRef r;
     animRef := x; wireframeRef := wireframeRef r;
     autoRotateRef := autoRotateRef r |}.
Definition set_wireframeRef x (r : Refs) : Refs :=
  {| mountRef := mountRef r; sceneRef := sceneRef r; cameraRef := cameraRef r;
     rendererRef := rendererRef r; currentMeshRef := currentMeshRef r;
     animRef := animRef r; wireframeRef := x;
     autoRotateRef := autoRotateRef r |}.
Definition set_autoRotateRef x (r : Refs) : Refs :=
  {| mountRef := mountRef r; sceneRef := sceneRef r; cameraRef := cameraRef r;
     rendererRef := rendererRef r; currentMeshRef := currentMeshRef r;
     animRef := animRef r; wireframeRef := wireframeRef r;
     autoRotateRef := x |}.

Definition set_geometryHeap x (h : Heap) : Heap :=
  {| geometryHeap := x; materialHeap := materialHeap h |}.
Definition set_materialHeap x (h : Heap) : Heap :=
  {| geometryHeap := geometryHeap h; materialHeap := x |}.

Definition set_localStorage x (b : Window) : Window :=
  {| localStorage := x; devicePixelRatio := devicePixelRatio b;
     resizeListener := resizeListener b; pendingFrames := pendingFrames b;
     nextFrame := nextFrame b; canvases := canvases b |}.
Definition set_devicePixelRatio x (b : Window) : Window :=
  {| localStorage := localStorage b; devicePixelRatio := x;
     resizeListener := resizeListener b; pendingFrames := pendingFrames b;
     nextFrame := nextFrame b; canvases := canvases b |}.
Definition set_resizeListener x (b : Window) : Window :=
  {| localStorage := localStorage b; devicePixelRatio := devicePixelRatio b;
     resizeListener := x; pendingFrames := pendingFrames b;
     nextFrame := nextFrame b; canvases := canvases b |}.
Definition set_pendingFrames x (b : Window) : Window :=
  {| localStorage := localStorage b; devicePixelRatio := devicePixelRatio b;
     resizeListener := resizeListener b; pendingFrames := x;
     nextFrame := nextFrame b; canvases := canvases b |}.
Definition set_nextFrame x (b : Window) : Window :=
  {| localStorage := localStorage b; devicePixelRatio := devicePixelRatio b;
     resizeListener := resizeListener b; pendingFrames := pendingFrames b;
     nextFrame := x; canvases := canvases b |}.
Definition set_canvases x (b : Window) : Window :=
  {| localStorage := localStorage b; devicePixelRatio := devicePixelRatio b;
     resizeListener := resizeListener b; pendingFrames := pendingFrames b;
     nextFrame := nextFrame b; canvases := x |}.

Definition set_state x (w : World) : World :=
  {| state := x; refs := refs w; heap := heap w; window := window w;
     cleanup := cleanup w; log := log w |}.
Definition set_refs x (w : World) : World :=
  {| state := state w; refs := x; heap := heap w; window := window w;
     cleanup := cleanup w; log := log w |}.
Definition set_heap x (w : World) : World :=
  {| state := state w; refs := refs w; heap := x; window := window w;
     cleanup := cleanup w; log := log w |}.
Definition set_window x (w : World) : World :=
  {| state := state w; refs := refs w; heap := heap w; window := x;
     cleanup := cleanup w; log := log w |}.
Definition set_cleanup x (w : World) : World :=
  {| state := state w; refs := refs w; heap := heap w; window := window w;
     cleanup := x; log := log w |}.
Definition set_log x (w : World) : World :=
  {| state := state w; refs := refs w; heap := heap w; window := window w;
     cleanup := cleanup w; log := x |}.

Definition set_geometry x (m : Mesh) : Mesh :=
  {| geometry := x; material := material m;
     rotation_x := rotation_x m; rotation_y := rotation_y m |}.
Definition set_rotation x y (m : Mesh) : Mesh :=
  {| geometry := geometry m; material := material m;
     rotation_x := x; rotation_y := y |}.

(** ** A state monad for the component's statements *)

Definition M (A : Type) : Type := World → A * World.

#[global] Instance M_ret : MRet M := λ A a w, (a, w).
#[global] Instance M_bind : MBind M :=
  λ A B f m w, let '(a, w') := m w in f a w'.

Definition gets {A} (f : World → A) : M A := λ w, (f w, w).
Definition modify (f : World → World) : M unit := λ w, (tt, f w).
Definition exec {A} (m : M A) (w : World) : World := (m w).2.
Definition skip : M unit := mret tt.

Definition modify_state (f : State → State) : M unit :=
  modify (λ w, set_state (f (state w)) w).
Definition modify_refs (f : Refs → Refs) : M unit :=
  modify (λ w, set_refs (f (refs w)) w).
Definition modify_heap (f : Heap → Heap) : M unit :=
  modify (λ w, set_heap (f (heap w)) w).
Definition modify_window (f : Window → Window) : M unit :=
  modify (λ w, set_window (f (window w)) w).
Definition call (c : Call) : M unit :=
  modify (λ w, set_log (log w ++ [c]) w).

(** *** The rendering library *)

Definition disposed_geometry (o : Geometry) : Geometry :=
  {| shape := shape o; g_disposed := S (g_disposed o) |}.

(** [new THREE.XGeometry(...)]: a fresh live resource. *)
Definition new_geometry (b : BufferGeometry) : M nat :=
  g ← gets (λ w, length (geometryHeap (heap w)));
  modify_heap (λ h, set_geometryHeap
    (geometryHeap h ++ [{| shape := b; g_disposed := 0 |}]) h);;
  call (geometry_new g b);;
  mret g.

(** [g.dispose()] *)
Definition dispose_geometry (g : nat) : M unit :=
  modify_heap (λ h, set_geometryHeap
    (alter disposed_geometry g (geometryHeap h)) h);;
  call (geometry_dispose g).

Definition alter_material (f : Material → Material) (m : nat) : M unit :=
  modify_heap (λ h, set_materialHeap (alter f m (materialHeap h)) h).

(** [new THREE.MeshPhongMaterial({ color, wireframe })] *)
Definition new_material (c : string) (wf : bool) : M nat :=
  m ← gets (λ w, length (materialHeap (heap w)));
  modify_heap (λ h, set_materialHeap
    (materialHeap h ++ [{| m_color := c; m_wireframe := wf;
                           m_needsUpdate := 0; m_disposed := 0 |}]) h);;
  call (material_new m c wf);;
  mret m.

(** [material.color.set(c)] *)
Definition material_set_color (m : nat) (c : string) : M unit :=
  alter_material (λ o, {| m_color := c; m_wireframe := m_wireframe o;
    m_needsUpdate := m_needsUpdate o; m_disposed := m_disposed o |}) m;;
  call (material_color_set m c).

(** [material.wireframe = wf] *)
Definition material_set_wireframe (m : nat) (wf : bool) : M unit :=
  alter_material (λ o, {| m_color := m_color o; m_wireframe := wf;
    m_needsUpdate := m_needsUpdate o; m_disposed := m_disposed o |}) m;;
  call (material_wireframe_set m wf).

(** [material.needsUpdate = true] *)
Definition material_set_needsUpdate (m : nat) : M unit :=
  alter_material (λ o, {| m_color := m_color o; m_wireframe := m_wireframe o;
    m_needsUpdate := S (m_needsUpdate o); m_disposed := m_disposed o |}) m;;
  call (material_needsUpdate m).

(** [material.dispose()] *)
Definition dispose_material (m : nat) : M unit :=
  alter_material (λ o, {| m_color := m_color o; m_wireframe := m_wireframe o;
    m_needsUpdate := m_needsUpdate o; m_disposed := S (m_disposed o) |}) m;;
  call (material_dispose m).

(** [scene.add(o)] and [scene.clear()] on the scene of [sceneRef]. *)
Definition scene_add_object (o : Object3D) : M unit :=
  modify_refs (λ r, set_sceneRef
    ((λ s, {| background := background s; children := children s ++ [o] |})
       <$> sceneRef r) r);;
  call (scene_add o).

Definition scene_clear_all : M unit :=
  modify_refs (λ r, set_sceneRef
    ((λ s, {| background := background s; children := [] |})
       <$> sceneRef r) r);;
  call scene_clear.

Definition alter_renderer (f : WebGLRenderer → WebGLRenderer) : M unit :=
  modify_refs (λ r, set_rendererRef (f <$> rendererRef r) r).

(** [renderer.setSize(w, h)] *)
Definition renderer_set_size (w h : float) : M unit :=
  alter_renderer (λ o, {| domElement := domElement o; size := (w, h);
    pixelRatio := pixelRatio o; r_disposed := r_disposed o;
    frames := frames o |});;
  call (renderer_setSize w h).

(** [renderer.setPixelRatio(x)] *)
Definition renderer_set_pixelRatio (x : float) : M unit :=
  alter_renderer (λ o, {| domElement := domElement o; size := size o;
    pixelRatio := x; r_disposed := r_disposed o; frames := frames o |});;
  call (renderer_setPixelRatio x).

(** [renderer.render(scene, camera)]: one more frame drawn. *)
Definition renderer_draw : M unit :=
  alter_renderer (λ o, {| domElement := domElement o; size := size o;
    pixelRatio := pixelRatio o; r_disposed := r_disposed o;
    frames := S (frames o) |});;
  call renderer_render.

(** [renderer.dispose()] *)
Definition dispose_renderer : M unit :=
  r ← gets (λ w, rendererRef (refs w));
  alter_renderer (λ o, {| domElement := domElement o; size := size o;
    pixelRatio := pixelRatio o; r_disposed := S (r_disposed o);
    frames := frames o |});;
  from_option (λ o, call (renderer_dispose (domElement o))) skip r.

(** *** The browser *)

(** [localStorage.getItem(k)]: [None] is [null]. *)
Definition getItem (store : gmap string string) (k : string) : option string :=
  store !! k.

(** The store after [setItem(k, v)]. *)
Definition stored (k v : string) (store : gmap string string)
  : gmap string string := <[k:=v]> store.
#[global] Arguments stored : simpl never.

(** [localStorage.setItem(k, v)] *)
Definition setItem (k v : string) : M unit :=
  modify_window (λ b, set_localStorage (stored k v (localStorage b)) b);;
  call (localStorage_setItem k v).

(** [String(b)] for a boolean. *)
Definition String_of_bool (b : bool) : string :=
  if b then "true" else "false".

(** [requestAnimationFrame(animate)]: a fresh positive handle, and the
    callback queued for the next frame. *)
Definition requestAnimationFrame : M nat :=
  id ← gets (λ w, nextFrame (window w));
  modify_window (λ b, set_pendingFrames (pendingFrames b ++ [id])
                        (set_nextFrame (S id) b));;
  call (window_requestAnimationFrame id);;
  mret id.

(** [cancelAnimationFrame(id)] *)
Definition cancelAnimationFrame (id : nat) : M unit :=
  modify_window (λ b, set_pendingFrames
    (filter (λ i, i ≠ id) (pendingFrames b)) b);;
  call (window_cancelAnimationFrame id).

(** Truthiness of a number: [0], [-0] and [NaN] are falsy. *)
Definition falsy (x : float) : bool :=
  (PrimFloat.eqb x 0%float || negb (PrimFloat.eqb x x))%bool.

(** [x || d] on numbers. *)
Definition or_default (x d : float) : float := if falsy x then d else x.

(** ** The component *)

(** *** Initial render *)

#[global] Instance GeometryItem_inhabited : Inhabited GeometryItem :=
  populate {| name := ""; category := ""; description := "";
              create := SphereGeometry 0 0 0; color := "" |}.

(** The [useState] initializers. *)
Definition initialWireframe (store : gmap string string) : bool :=
  bool_decide (getItem store "wireframe" = Some "true").

Definition initialAutoRotate (store : gmap string string) : bool :=
  negb (bool_decide (getItem store "autoRotate" = Some "false")).

Definition initialState (store : gmap string string) : State :=
  {| wireframe := initialWireframe store;
     autoRotate := initialAutoRotate store;
     selectedGeometry := geometries !!! 0%nat |}.

(** The world when the first render has been committed and no effect has run
    yet: the refs hold their initial values, [mountRef] points to the
    container if there is one. *)
Definition initialWorld (store : gmap string string)
    (container : option HTMLDivElement) (ratio : float) : World :=
  {| state := initialState store;
     refs := {| mountRef := container; sceneRef := None; cameraRef := None;
                rendererRef := None; currentMeshRef := None; animRef := None;
                wireframeRef := initialWireframe store;
                autoRotateRef := initialAutoRotate store |};
     heap := {| geometryHeap := []; materialHeap := [] |};
     window := {| localStorage := store; devicePixelRatio := ratio;
                  resizeListener := false; pendingFrames := [];
                  nextFrame := 1; canvases := 0 |};
     cleanup := None;
     log := [] |}.

(** *** Effects *)

(** [useEffect(..., [wireframe])], the first one. *)
Definition syncWireframe : M unit :=
  wf ← gets (λ w, wireframe (state w));
  modify_refs (set_wireframeRef wf);;
  setItem "wireframe" (String_of_bool wf).

(** [useEffect(..., [autoRotate])] *)
Definition syncAutoRotate : M unit :=
  ar ← gets (λ w, autoRotate (state w));
  modify_refs (set_autoRotateRef ar);;
  setItem "autoRotate" (String_of_bool ar).

(** The render loop. *)
Definition animate : M unit :=
  id ← requestAnimationFrame;
  modify_refs (set_animRef (Some id));;
  ar ← gets (λ w, autoRotateRef (refs w));
  mesh ← gets (λ w, currentMeshRef (refs w));
  match mesh return M unit with
  | Some m =>
      if ar : bool then
        modify_refs (set_currentMeshRef (Some
          (set_rotation (rotation_x m + 0.01)%float
                        (rotation_y m + 0.015)%float m)))
      else skip
  | None => skip
  end;;
  renderer_draw.

(** The listener of the window's [resize] event. *)
Definition handleResize : M unit :=
  r ← gets refs;
  match mountRef r, cameraRef r, rendererRef r return M unit with
  | Some el, Some camera, Some _ =>
      let w := or_default (rect el).1 800%float in
      let h := or_default (rect el).2 600%float in
      modify_refs (set_cameraRef (Some
        {| fov := fov camera; aspect := (w / h)%float; near := near camera;
           far := far camera; position := position camera;
           projectionUpdates := S (projectionUpdates camera) |}));;
      call camera_updateProjectionMatrix;;
      renderer_set_size w h
  | _, _, _ => skip
  end.

(** [useEffect(..., [])]: scene, camera, renderer, lights, helpers, the
    initial mesh, the render loop and the resize listener.  Its return value,
    the cleanup function, is stored with the variables it closes over. *)
Definition setupEffect : M unit :=
  r ← gets refs;
  match mountRef r return M unit with
  | None => skip
  | Some el =>
      match rendererRef r return M unit with
      | None => skip
      | Some old =>
          dispose_renderer;;
          if bool_decide (domElement old ∈ childNodes el) return M unit then
            modify_refs (λ r, set_mountRef
              ((λ e, {| rect := rect e;
                        childNodes := filter (λ c, c ≠ domElement old)
                                             (childNodes e) |})
                 <$> mountRef r) r);;
            call (container_removeChild (domElement old))
          else skip
      end;;
      modify_refs (set_sceneRef
        (Some {| background := 0x0a0a0a; children := [] |}));;
      let '(width, height) := rect el in
      modify_refs (set_cameraRef (Some
        {| fov := 75; aspect := width / height; near := 0.1; far := 1000;
           position := (3, 2, 4); projectionUpdates := 0 |}%float));;
      canvas ← gets (λ w, canvases (window w));
      modify_window (set_canvases (S canvas));;
      modify_refs (set_rendererRef (Some
        {| domElement := canvas; size := (300, 150)%float;
           pixelRatio := 1%float; r_disposed := 0; frames := 0 |}));;
      call (renderer_new canvas);;
      renderer_set_size width height;;
      ratio ← gets (λ w, devicePixelRatio (window w));
      renderer_set_pixelRatio ratio;;
      modify_refs (λ r, set_mountRef
        ((λ e, {| rect := rect e; childNodes := childNodes e ++ [canvas] |})
           <$> mountRef r) r);;
      call (container_appendChild canvas);;
      scene_add_object AmbientLight;;
      scene_add_object DirectionalLight;;
      scene_add_object AxesHelper;;
      scene_add_object GridHelper;;
      st ← gets state;
      geometry ← new_geometry (create (selectedGeometry st));
      material ← new_material (color (selectedGeometry st)) (wireframe st);
      scene_add_object MeshObject;;
      modify_refs (set_currentMeshRef (Some
        {| geometry := geometry; material := material;
           rotation_x := 0%float; rotation_y := 0%float |}));;
      animate;;
      modify_window (set_resizeListener true);;
      call window_addResizeListener;;
      modify (set_cleanup (Some
        {| c_geometry := geometry; c_material := material |}))
  end.

(** The cleanup function returned by the setup effect.  It runs once: the
    effect is gone afterwards. *)
Definition cleanupEffect : M unit :=
  c ← gets cleanup;
  match c return M unit with
  | None => skip
  | Some c =>
      modify_window (set_resizeListener false);;
      call window_removeResizeListener;;
      anim ← gets (λ w, animRef (refs w));
      match anim return M unit with
      | Some id => if bool_decide (id ≠ 0%nat) then cancelAnimationFrame id
                   else skip
      | None => skip
      end;;
      dispose_geometry (c_geometry c);;
      dispose_material (c_material c);;
      scene_clear_all;;
      dispose_renderer;;
      modify (set_cleanup None)
  end.

(** [useEffect(..., [selectedGeometry])] *)
Definition selectionEffect : M unit :=
  mesh ← gets (λ w, currentMeshRef (refs w));
  match mesh return M unit with
  | None => skip
  | Some mesh =>
      let oldGeometry := geometry mesh in
      dispose_geometry oldGeometry;;
      sel ← gets (λ w, selectedGeometry (state w));
      newGeometry ← new_geometry (create sel);
      modify_refs (λ r, set_currentMeshRef
        (set_geometry newGeometry <$> currentMeshRef r) r);;
      call (mesh_geometry_set newGeometry);;
      let material := material mesh in
      material_set_color material (color sel);;
      wf ← gets (λ w, wireframeRef (refs w));
      material_set_wireframe material wf;;
      material_set_needsUpdate material
  end.

(** [useEffect(..., [wireframe])], the second one. *)
Definition wireframeEffect : M unit :=
  mesh ← gets (λ w, currentMeshRef (refs w));
  match mesh return M unit with
  | None => skip
  | Some mesh =>
      wf ← gets (λ w, wireframe (state w));
      material_set_wireframe (material mesh) wf;;
      material_set_needsUpdate (material mesh)
  end.

(** *** Life cycle and events *)

(** Mounting runs every effect once, in the order it is declared. *)
Definition mount (store : gmap string string)
    (container : option HTMLDivElement) (ratio : float) : World :=
  exec (syncWireframe;; syncAutoRotate;; setupEffect;; selectionEffect;;
        wireframeEffect)
       (initialWorld store container ratio).

(** Unmounting runs the cleanup functions; only the setup effect has one. *)
Definition unmount (w : World) : World := exec cleanupEffect w.

(** What can happen to a mounted component: a click on the button of a
    catalog entry or on one of the two toggles, a display refresh, and a
    resize of the window after which the container reports the given
    bounds. *)
Inductive Event : Type :=
| Click (geom : GeometryItem)
| ClickAutoRotate
| ClickWireframe
| AnimationFrame
| Resize (width height : float).

(** [setSelectedGeometry(geom)], and the effects of the render it causes.
    An effect runs again only when one of its dependencies is a different
    object than at the previous render. *)
Definition selectShape (geom : GeometryItem) : M unit :=
  old ← gets (λ w, selectedGeometry (state w));
  if bool_decide (geom = old) return M unit then skip
  else modify_state (set_selectedGeometry geom);; selectionEffect.

(** [setWireframe(!wireframe)] *)
Definition toggleWireframe : M unit :=
  modify_state (λ st, set_wireframe (negb (wireframe st)) st);;
  syncWireframe;;
  wireframeEffect.

(** [setAutoRotate(!autoRotate)] *)
Definition toggleAutoRotate : M unit :=
  modify_state (λ st, set_autoRotate (negb (autoRotate st)) st);;
  syncAutoRotate.

(** The browser runs the callbacks queued for this frame. *)
Definition frame : M unit :=
  ids ← gets (λ w, pendingFrames (window w));
  modify_window (set_pendingFrames []);;
  foldr (λ _ k, animate;; k) skip ids.

(** The container takes its new bounds and the window dispatches [resize]. *)
Definition resize (width height : float) : M unit :=
  modify_refs (λ r, set_mountRef
    ((λ e, {| rect := (width, height); childNodes := childNodes e |})
       <$> mountRef r) r);;
  listening ← gets (λ w, resizeListener (window w));
  if listening : bool return M unit then handleResize else skip.

Definition step (w : World) (e : Event) : World :=
  match e with
  | Click geom => exec (selectShape geom) w
  | ClickAutoRotate => exec toggleAutoRotate w
  | ClickWireframe => exec toggleWireframe w
  | AnimationFrame => exec frame w
  | Resize width height => exec (resize width height) w
  end.

#[global] Arguments step : simpl never.

(** A sequence of events, oldest first. *)
Definition run (w : World) (es : list Event) : World := fold_left step es w.

(** The worlds a mounted component can be in. *)
Inductive Reachable : World → Prop :=
| reach_mount store container ratio :
    Reachable (mount store container ratio)
| reach_step w e : Reachable w → Reachable (step w e).

(** *** Observations *)

(** The two rotation angles the render loop advances. *)
Definition rotation (m : Mesh) : float * float :=
  (rotation_x m, rotation_y m).

(** The material of the displayed mesh, read through the heap. *)
Definition displayedMaterial (w : World) : option Material :=
  currentMeshRef (refs w) ≫= λ m, materialHeap (heap w) !! material m.

(** The geometry of the displayed mesh, read through the heap. *)
Definition displayedGeometry (w : World) : option Geometry :=
  currentMeshRef (refs w) ≫= λ m, geometryHeap (heap w) !! geometry m.

(** A container of 800 by 600 pixels, and the component mounted in it over
    an empty store. *)
Definition exampleContainer : HTMLDivElement :=
  {| rect := (800, 600)%float; childNodes := [] |}.

Definition exampleWorld : World := mount ∅ (Some exampleContainer) 1%float.

Definition Box : GeometryItem := geometries !!! 1%nat.
Definition Torus : GeometryItem := geometries !!! 4%nat.

(** ** Symbolic execution *)

(** Runs the statements of the component on a world whose fields are known,
    statement by statement (call by value, so that the world a statement
    leaves is computed once), leaving list, map and float operations on
    unknown values as they are. *)
Ltac run_component :=
  cbv beta iota zeta delta [
    M_ret M_bind mret mbind exec skip gets modify modify_state modify_refs
    modify_heap modify_window call
    new_geometry dispose_geometry alter_material new_material
    material_set_color material_set_wireframe material_set_needsUpdate
    dispose_material scene_add_object scene_clear_all alter_renderer
    renderer_set_size renderer_set_pixelRatio renderer_draw dispose_renderer
    setItem requestAnimationFrame cancelAnimationFrame
    syncWireframe syncAutoRotate animate handleResize setupEffect
    cleanupEffect selectionEffect wireframeEffect
    mount unmount selectShape toggleWireframe toggleAutoRotate frame resize
    step initialWorld initialState
    set_wireframe set_autoRotate set_selectedGeometry
    set_mountRef set_sceneRef set_cameraRef set_rendererRef
    set_currentMeshRef set_animRef set_wireframeRef set_autoRotateRef
    set_geometryHeap set_materialHeap
    set_localStorage set_devicePixelRatio set_resizeListener
    set_pendingFrames set_nextFrame set_canvases
    set_state set_refs set_heap set_window set_cleanup set_log
    set_geometry set_rotation
    state refs heap window cleanup log
    wireframe autoRotate selectedGeometry
    mountRef sceneRef cameraRef rendererRef currentMeshRef animRef
    wireframeRef autoRotateRef geometryHeap materialHeap
    localStorage devicePixelRatio resizeListener pendingFrames nextFrame
    canvases geometry material rotation_x rotation_y
    background children fov aspect near far position projectionUpdates
    domElement size pixelRatio r_disposed frames rect childNodes
    c_geometry c_material
    fst snd fmap option_fmap option_map from_option foldr ].

(** Splits a world into its fields. *)
Ltac open_world w :=
  let st := fresh "st" in
  let r := fresh "r" in
  let h := fresh "h" in
  let b := fresh "b" in
  destruct w as [st r h b ? ?]; destruct st, r, h, b; cbn in *.

(** ** Invariants of a mounted component *)

(** The viewport never started: the container was absent when the setup
    effect ran, so nothing was built and no cleanup was registered. *)
Record Idle (w : World) : Prop := {
  idle_mesh : currentMeshRef (refs w) = None;
  idle_mount : mountRef (refs w) = None;
  idle_cleanup : cleanup w = None;
  idle_listener : resizeListener (window w) = false;
  idle_frames : pendingFrames (window w) = []
}.

(** The viewport is running and displays [mesh]. *)
Record Running (w : World) (mesh : Mesh) : Prop := {
  run_mesh : currentMeshRef (refs w) = Some mesh;
  run_geometry :
    geometryHeap (heap w) !! geometry mesh =
      Some {| shape := create (selectedGeometry (state w));
              g_disposed := 0 |};
  run_newest : S (geometry mesh) = length (geometryHeap (heap w));
  run_stale :
    Forall (λ o, g_disposed o = 1%nat)
           (take (geometry mesh) (geometryHeap (heap w)));
  run_initial : (0 < geometry mesh)%nat;
  run_material :
    ∃ n, materialHeap (heap w) !! material mesh =
      Some {| m_color := color (selectedGeometry (state w));
              m_wireframe := wireframe (state w);
              m_needsUpdate := n; m_disposed := 0 |};
  run_closure :
    cleanup w = Some {| c_geometry := 0; c_material := material mesh |};
  run_loop :
    ∃ id, pendingFrames (window w) = [id] ∧ animRef (refs w) = Some id ∧
          id ≠ 0%nat ∧ nextFrame (window w) = S id;
  run_listener : resizeListener (window w) = true;
  run_mount : is_Some (mountRef (refs w));
  run_camera : is_Some (cameraRef (refs w));
  run_scene : is_Some (sceneRef (refs w));
  run_renderer : ∃ r, rendererRef (refs w) = Some r ∧ r_disposed r = 0%nat
}.

(** The mirror refs agree with the state they mirror, and the viewport is
    either idle or running. *)
Record Inv (w : World) : Prop := {
  inv_wireframeRef : wireframeRef (refs w) = wireframe (state w);
  inv_autoRotateRef : autoRotateRef (refs w) = autoRotate (state w);
  inv_viewport : Idle w ∨ ∃ mesh, Running w mesh
}.

(** ** Lemmas on the heap *)

Section HeapLemmas.
Context {A : Type}.
Implicit Types (l : list A) (f : A → A) (P : A → Prop).

Lemma lookup_fresh l x : (l ++ [x]) !! length l = Some x.
Proof. by apply list_lookup_middle. Qed.

Lemma lookup_alter_fresh l f i x :
  (alter f i l ++ [x]) !! length l = Some x.
Proof. apply list_lookup_middle. by rewrite length_alter. Qed.

Lemma take_alter_fresh l f i x :
  take (length l) (alter f i l ++ [x]) = alter f i l.
Proof.
  apply take_app_length'. by rewrite length_alter.
Qed.

(** Altering the newest object with a function that establishes [P], when
    every older object satisfies [P], makes the whole heap satisfy [P]. *)
Lemma Forall_alter_newest l f i x P :
  l !! i = Some x → S i = length l →
  Forall P (take i l) → P (f x) → Forall P (alter f i l).
Proof.
  intros Hi Hlen Hold Hnew. apply Forall_lookup. intros j y Hj.
  destruct (decide (i = j)) as [<-|Hne].
  - rewrite list_lookup_alter_eq, Hi in Hj. cbn in Hj. by simplify_eq.
  - rewrite list_lookup_alter_ne in Hj by done.
    assert (j < i)%nat.
    { apply lookup_lt_Some in Hj. lia. }
    eapply (proj1 (Forall_lookup P (take i l))); [done|].
    by rewrite lookup_take_lt.
Qed.
End HeapLemmas.

(** ** The invariants hold in every reachable world *)

(** Closes the arithmetic and heap side conditions left by a step. *)
Ltac solve_heap :=
  cbn; rewrite ?length_app, ?length_alter; cbn;
  first
    [ done
    | lia
    | by apply lookup_alter_fresh
    | by rewrite take_alter_fresh; eapply Forall_alter_newest
    | by eexists; rewrite !list_lookup_alter_eq;
         match goal with H : _ !! _ = Some _ |- _ => rewrite H end ].

Ltac solve_idle :=
  by constructor; cbn; [done|done|]; left; constructor.

Ltac solve_running :=
  constructor; cbn; [done|done|]; right; eexists;
  constructor; [reflexivity|..]; cbn; eauto 10; solve_heap.

Lemma mount_Inv store container ratio : Inv (mount store container ratio).
Proof.
  unfold mount, initialWorld, initialState.
  destruct container as [[[width height] nodes]|];
    destruct (initialAutoRotate store); run_component.
  1,2: constructor; cbn; [done|done|]; right; eexists; constructor; cbn;
       eauto; by repeat constructor.
  all: solve_idle.
Qed.

(** Names the components of a running world. *)
Ltac open_running w mesh :=
  open_world w; destruct mesh as [? ? ? ?];
  repeat match goal with H : ∃ _, _ |- _ => destruct H end;
  destruct_and?;
  repeat match goal with H : is_Some _ |- _ => destruct H end;
  simplify_eq/=.

Lemma step_Inv w e : Inv w → Inv (step w e).
Proof.
  intros [Hwf Har [[]|[mesh []]]].
  - open_world w. simplify_eq/=.
    destruct e; run_component; try case_bool_decide; run_component.
    all: solve_idle.
  - open_running w mesh.
    destruct e as [geom| | | |width height].
    + run_component; case_bool_decide; run_component; solve_running.
    + run_component; solve_running.
    + run_component; solve_running.
    + run_component.
      match goal with |- context [if ?b then _ else _] => destruct b end;
        run_component; solve_running.
    + run_component; solve_running.
Qed.

Lemma Reachable_Inv w : Reachable w → Inv w.
Proof. induction 1; [apply mount_Inv | by apply step_Inv]. Qed.

Lemma Reachable_run w es : Reachable w → Reachable (run w es).
Proof.
  revert w. induction es as [|e es IH]; intros w Hw; [done|].
  apply IH. by constructor.
Qed.

(** ** Properties of the catalog *)

(** Grouping neither loses nor duplicates an entry, whatever the list. *)
Section Grouping.
Implicit Types (acc : Grouped) (k : string) (g : GeometryItem).

Lemma flatten_set_empty acc k : flatten (set_empty acc k) = flatten acc.
Proof.
  unfold flatten, set_empty. rewrite map_app, concat_app. cbn.
  by rewrite app_nil_r.
Qed.

Lemma get_set_empty acc k :
  get acc k = None → get (set_empty acc k) k = Some [].
Proof.
  induction acc as [|[k' v] rest IH]; cbn.
  - by rewrite String.eqb_refl.
  - destruct (String.eqb k' k); [done|apply IH].
Qed.

Lemma flatten_push acc k g :
  is_Some (get acc k) → flatten (push acc k g) ≡ₚ g :: flatten acc.
Proof.
  induction acc as [|[k' v] rest IH]; cbn.
  - by intros [? ?].
  - destruct (String.eqb k' k); unfold flatten in *; cbn.
    + intros _. rewrite <- app_assoc. cbn. by rewrite Permutation_middle.
    + intros Hget. rewrite (IH Hget). by rewrite Permutation_middle.
Qed.

Lemma flatten_reducer acc g : flatten (reducer acc g) ≡ₚ g :: flatten acc.
Proof.
  unfold reducer. destruct (get acc (category g)) eqn:Hget.
  - apply flatten_push. by rewrite Hget.
  - rewrite flatten_push by (by rewrite get_set_empty).
    by rewrite flatten_set_empty.
Qed.

Lemma flatten_fold l acc :
  flatten (fold_left reducer l acc) ≡ₚ flatten acc ++ l.
Proof.
  revert acc. induction l as [|g l IH]; intros acc; cbn [fold_left].
  - by rewrite app_nil_r.
  - rewrite IH, flatten_reducer, <- app_comm_cons.
    apply Permutation_middle.
Qed.

Lemma categorize_permutation l : flatten (categorize l) ≡ₚ l.
Proof. apply flatten_fold. Qed.
End Grouping.

(** C5: in the catalog as defined, every entry's name is unique; the grouping
    lists the categories in order of first appearance, each with its entries
    in catalog order; and the groups concatenated give back the catalog. *)
Theorem catalog_grouping_roundtrip :
  NoDup (map name geometries) ∧
  map fst categorizedGeometries = ["Primitivas"; "Platónicos"] ∧
  Forall (λ kv, kv.2 = filter (λ g, category g = kv.1) geometries)
         categorizedGeometries ∧
  flatten categorizedGeometries = geometries.
Proof.
  split; [|split; [|split]].
  - by apply (bool_decide_unpack _).
  - reflexivity.
  - by apply (bool_decide_unpack _).
  - reflexivity.
Qed.

(** ** Startup *)

(** Without a container the setup effect builds nothing. *)
Lemma mount_without_container store ratio :
  Idle (mount store None ratio).
Proof.
  unfold mount, initialWorld, initialState. run_component. by constructor.
Qed.

Lemma state_mount store container ratio :
  state (mount store container ratio) = initialState store.
Proof.
  unfold mount, initialWorld, initialState.
  destruct container as [[[width height] nodes]|];
    destruct (initialAutoRotate store); by run_component.
Qed.

(** C2: at startup [wireframe] is true exactly when the store holds the
    string "true" under "wireframe", [autoRotate] is false exactly when it
    holds the string "false" under "autoRotate", the selected shape is the
    first entry of the catalog, named "Sphere", and over an empty store
    wireframe is off and auto-rotation is on. *)
Theorem startup_state store container ratio :
  (wireframe (state (mount store container ratio)) = true ↔
     store !! "wireframe" = Some "true") ∧
  (autoRotate (state (mount store container ratio)) = false ↔
     store !! "autoRotate" = Some "false") ∧
  geometries !! 0%nat =
    Some (selectedGeometry (state (mount store container ratio))) ∧
  name (selectedGeometry (state (mount store container ratio))) = "Sphere" ∧
  wireframe (state (mount ∅ container ratio)) = false ∧
  autoRotate (state (mount ∅ container ratio)) = true.
Proof.
  rewrite !state_mount. cbn [initialState wireframe autoRotate selectedGeometry].
  unfold initialWireframe, initialAutoRotate, getItem.
  split; [|split; [|split; [|split; [|split]]]]; try reflexivity.
  - apply bool_decide_eq_true.
  - rewrite negb_false_iff. apply bool_decide_eq_true.
Qed.

(** ** Frame conditions of the three operations *)

(** C7: selecting a shape leaves both settings as they are, and each toggle
    leaves the selection and the other setting as they are, in every world. *)
Theorem state_fields_independent w geom :
  wireframe (state (step w (Click geom))) = wireframe (state w) ∧
  autoRotate (state (step w (Click geom))) = autoRotate (state w) ∧
  selectedGeometry (state (step w ClickWireframe)) =
    selectedGeometry (state w) ∧
  autoRotate (state (step w ClickWireframe)) = autoRotate (state w) ∧
  selectedGeometry (state (step w ClickAutoRotate)) =
    selectedGeometry (state w) ∧
  wireframe (state (step w ClickAutoRotate)) = wireframe (state w).
Proof.
  open_world w.
  repeat split;
    destruct currentMeshRef0 as [[]|]; run_component;
    try case_bool_decide; by run_component.
Qed.

(** C10: selecting a shape keeps the mesh and its accumulated rotation: the
    mesh held by [currentMeshRef] after the click has the rotation angles and
    the material it had before, and there is one exactly when there was. *)
Theorem selection_keeps_rotation w geom :
  rotation <$> currentMeshRef (refs (step w (Click geom))) =
    rotation <$> currentMeshRef (refs w) ∧
  material <$> currentMeshRef (refs (step w (Click geom))) =
    material <$> currentMeshRef (refs w).
Proof.
  open_world w.
  split; destruct currentMeshRef0 as [[]|]; run_component;
    case_bool_decide; by run_component.
Qed.

(** C9: when no mesh is displayed, the reaction to a selection change does
    nothing at all, and a click on a shape changes the selection and nothing
    else: heap, refs, window, cleanup and the log of calls stay as they
    are. *)
Theorem selection_without_mesh_is_noop w geom :
  currentMeshRef (refs w) = None →
  exec selectionEffect w = w ∧
  step w (Click geom) = set_state (set_selectedGeometry geom (state w)) w.
Proof.
  intros Hnone. open_world w. subst. split; [done|].
  run_component. case_bool_decide; run_component; by subst.
Qed.

(** The container was absent at mount: no mesh, and selecting "Torus" only
    records the selection. *)
Lemma selection_without_mesh_witness :
  currentMeshRef (refs (mount ∅ None 1%float)) = None ∧
  exec selectionEffect (mount ∅ None 1%float) = mount ∅ None 1%float ∧
  heap (step (mount ∅ None 1%float) (Click Torus)) =
    {| geometryHeap := []; materialHeap := [] |}.
Proof.
  split; [reflexivity|].
  destruct (selection_without_mesh_is_noop (mount ∅ None 1%float) Torus
              eq_refl) as [Heff Hstep].
  split; [exact Heff|]. rewrite Hstep. reflexivity.
Defined.

(** ** The running viewport *)

(** A reachable world that displays a mesh is a running one. *)
Lemma Reachable_Running w mesh :
  Reachable w → currentMeshRef (refs w) = Some mesh →
  Inv w ∧ Running w mesh.
Proof.
  intros Hreach Hmesh. pose proof (Reachable_Inv w Hreach) as HI.
  split; [done|]. destruct HI as [_ _ [[]|[mesh' Hrun]]]; [congruence|].
  destruct Hrun. by simplify_eq.
Qed.

(** Replaces a reachable world that displays [mesh] by its fields and the
    facts the invariant gives about them. *)
Ltac open_reachable w mesh Hreach Hmesh :=
  let Hwf := fresh "Hwf" in
  let Har := fresh "Har" in
  destruct (Reachable_Running w mesh Hreach Hmesh) as [[Hwf Har _] []];
  clear Hreach; open_running w mesh.

(** C3: a frame tick of a running viewport advances the two rotation angles
    of the mesh by 0.01 and 0.015 when auto-rotation is on and leaves the
    mesh as it is when it is off; in both cases one more frame is drawn and
    the callback is queued again for the next frame. *)
Theorem frame_tick w mesh :
  Reachable w → currentMeshRef (refs w) = Some mesh →
  currentMeshRef (refs (step w AnimationFrame)) =
    Some (if autoRotate (state w)
          then set_rotation (rotation_x mesh + 0.01)%float
                            (rotation_y mesh + 0.015)%float mesh
          else mesh) ∧
  (∃ r, rendererRef (refs w) = Some r ∧
        frames <$> rendererRef (refs (step w AnimationFrame)) =
          Some (S (frames r))) ∧
  (∃ id, pendingFrames (window (step w AnimationFrame)) = [id] ∧
         log (step w AnimationFrame) =
           log w ++ [window_requestAnimationFrame id; renderer_render]) ∧
  autoRotate (state (step w AnimationFrame)) = autoRotate (state w).
Proof.
  intros Hreach Hmesh. open_reachable w mesh Hreach Hmesh.
  destruct autoRotate0; run_component.
  all: split; [done|]; split; [by eexists|]; split; [|done].
  all: eexists; split; [done|]; by rewrite <- app_assoc.
Qed.

(** The mounted example with auto-rotation on: the first tick after mount
    takes the angles from (0.01, 0.015) to their sums with the deltas. *)
Lemma frame_tick_witness :
  rotation <$> currentMeshRef (refs (step exampleWorld AnimationFrame)) =
    Some ((0.01 + 0.01)%float, (0.015 + 0.015)%float).
Proof.
  destruct (frame_tick exampleWorld
              {| geometry := 1; material := 0;
                 rotation_x := 0.01; rotation_y := 0.015 |}
              (reach_mount ∅ (Some exampleContainer) 1%float) eq_refl)
    as [Hrot _].
  rewrite Hrot. reflexivity.
Defined.

(** C8: in a reachable world, two clicks on the wireframe toggle bring the
    setting and the wireframe flag of the displayed material back to what
    they were; a single click negates both. *)
Theorem wireframe_toggle_involution w :
  Reachable w →
  wireframe (state (step (step w ClickWireframe) ClickWireframe)) =
    wireframe (state w) ∧
  m_wireframe <$>
      displayedMaterial (step (step w ClickWireframe) ClickWireframe) =
    m_wireframe <$> displayedMaterial w ∧
  wireframe (state (step w ClickWireframe)) = negb (wireframe (state w)) ∧
  m_wireframe <$> displayedMaterial (step w ClickWireframe) =
    negb <$> (m_wireframe <$> displayedMaterial w).
Proof.
  intros Hreach. destruct (Reachable_Inv w Hreach) as [_ _ [[]|[mesh []]]].
  - clear Hreach. open_world w. simplify_eq/=. unfold displayedMaterial.
    run_component. by rewrite negb_involutive.
  - clear Hreach. open_running w mesh. unfold displayedMaterial.
    run_component. cbn.
    rewrite !list_lookup_alter_eq.
    match goal with H : _ !! _ = Some _ |- _ => rewrite H end. cbn.
    by rewrite negb_involutive.
Qed.

(** The mounted example starts solid; after two clicks it is solid again. *)
Lemma wireframe_toggle_witness :
  m_wireframe <$>
      displayedMaterial
        (step (step exampleWorld ClickWireframe) ClickWireframe) =
    Some false.
Proof.
  destruct (wireframe_toggle_involution exampleWorld
              (reach_mount ∅ (Some exampleContainer) 1%float))
    as (_ & Hflag & _).
  rewrite Hflag. reflexivity.
Defined.
(** One selection change in a running world, in terms of the world before. *)
Lemma selectShape_running w mesh geom :
  Reachable w → currentMeshRef (refs w) = Some mesh →
  geom ≠ selectedGeometry (state w) →
  ∃ n,
    currentMeshRef (refs (step w (Click geom))) =
      Some (set_geometry (length (geometryHeap (heap w))) mesh) ∧
    geometryHeap (heap (step w (Click geom))) =
      alter disposed_geometry (geometry mesh) (geometryHeap (heap w)) ++
      [{| shape := create geom; g_disposed := 0 |}] ∧
    geometryHeap (heap w) !! geometry mesh =
      Some {| shape := create (selectedGeometry (state w));
              g_disposed := 0 |} ∧
    materialHeap (heap w) !! material mesh =
      Some {| m_color := color (selectedGeometry (state w));
              m_wireframe := wireframe (state w);
              m_needsUpdate := n; m_disposed := 0 |} ∧
    materialHeap (heap (step w (Click geom))) !! material mesh =
      Some {| m_color := color geom; m_wireframe := wireframe (state w);
              m_needsUpdate := S n; m_disposed := 0 |} ∧
    state (step w (Click geom)) = set_selectedGeometry geom (state w) ∧
    log (step w (Click geom)) =
      log w ++
      [geometry_dispose (geometry mesh);
       geometry_new (length (geometryHeap (heap w))) (create geom);
       mesh_geometry_set (length (geometryHeap (heap w)));
       material_color_set (material mesh) (color geom);
       material_wireframe_set (material mesh) (wireframe (state w));
       material_needsUpdate (material mesh)].
Proof.
  intros Hreach Hmesh Hne. open_reachable w mesh Hreach Hmesh.
  run_component. case_bool_decide; [done|]. run_component.
  rewrite !list_lookup_alter_eq, length_alter.
  match goal with H : materialHeap0 !! _ = Some _ |- _ => rewrite H end.
  eexists. repeat split; try done.
  by rewrite <- !app_assoc.
Qed.

(** A click on a shape records it as the selection, whether or not it was
    selected already. *)
Lemma click_state w geom :
  state (step w (Click geom)) = set_selectedGeometry geom (state w).
Proof.
  open_world w. destruct currentMeshRef0 as [[]|]; run_component;
    case_bool_decide; run_component; by subst.
Qed.

(** A click on a shape keeps the mesh object; at most its geometry changes. *)
Lemma click_mesh w mesh geom :
  currentMeshRef (refs w) = Some mesh →
  ∃ g, currentMeshRef (refs (step w (Click geom))) =
         Some (set_geometry g mesh).
Proof.
  intros Hmesh. open_world w. destruct mesh as [g m rx ry]. subst.
  run_component. case_bool_decide; run_component; by eexists.
Qed.

(** C1: in a running viewport, selecting A and then a different shape B
    disposes A's geometry exactly once, before B's geometry is built and
    attached; the geometry attached is a new live resource built by B's
    [create]; the mesh keeps its material, whose color becomes B's color,
    whose wireframe flag becomes the current setting, and which is marked
    for another upload. *)
Theorem selection_change w mesh A B :
  Reachable w → currentMeshRef (refs w) = Some mesh → B ≠ A →
  ∃ gA gB n,
    let wA := step w (Click A) in
    let wB := step wA (Click B) in
    currentMeshRef (refs wA) = Some (set_geometry gA mesh) ∧
    currentMeshRef (refs wB) = Some (set_geometry gB mesh) ∧
    geometryHeap (heap wA) !! gA =
      Some {| shape := create A; g_disposed := 0 |} ∧
    geometryHeap (heap wB) !! gA =
      Some {| shape := create A; g_disposed := 1 |} ∧
    geometryHeap (heap wA) !! gB = None ∧
    geometryHeap (heap wB) !! gB =
      Some {| shape := create B; g_disposed := 0 |} ∧
    materialHeap (heap wA) !! material mesh =
      Some {| m_color := color A; m_wireframe := wireframe (state w);
              m_needsUpdate := n; m_disposed := 0 |} ∧
    materialHeap (heap wB) !! material mesh =
      Some {| m_color := color B; m_wireframe := wireframe (state wB);
              m_needsUpdate := S n; m_disposed := 0 |} ∧
    wireframe (state wB) = wireframe (state w) ∧
    log wB =
      log wA ++
      [geometry_dispose gA; geometry_new gB (create B);
       mesh_geometry_set gB;
       material_color_set (material mesh) (color B);
       material_wireframe_set (material mesh) (wireframe (state wB));
       material_needsUpdate (material mesh)].
Proof.
  intros Hreach Hmesh HB.
  destruct (click_mesh w mesh A Hmesh) as [gA HmA].
  pose proof (click_state w A) as HstA.
  assert (HreachA : Reachable (step w (Click A))) by by constructor.
  assert (HB' : B ≠ selectedGeometry (state (step w (Click A))))
    by by rewrite HstA.
  destruct (selectShape_running _ _ B HreachA HmA HB')
    as (n & HmB & HhB & HgA & HmatA & HmatB & HstB & HlogB).
  rewrite HstA in *. cbn in HhB, HgA, HmatA, HmatB, HlogB, HmB.
  exists gA, (length (geometryHeap (heap (step w (Click A))))), n.
  cbv zeta. rewrite HstB, ?HstA. cbn.
  repeat split; try done.
  - rewrite HhB. rewrite lookup_app_l.
    + by rewrite list_lookup_alter_eq, HgA.
    + rewrite length_alter. by eapply lookup_lt_Some.
  - by apply lookup_ge_None.
  - rewrite HhB. apply lookup_alter_fresh.
Qed.

(** From the mounted example, "Box" then "Torus": Box's geometry ends up
    disposed once and the mesh displays a live torus. *)
Lemma selection_change_witness :
  ∃ gA gB,
    geometryHeap
      (heap (step (step exampleWorld (Click Box)) (Click Torus))) !! gA =
      Some {| shape := BoxGeometry 1.5 1.5 1.5; g_disposed := 1 |} ∧
    geometryHeap
      (heap (step (step exampleWorld (Click Box)) (Click Torus))) !! gB =
      Some {| shape := TorusGeometry 1 0.4 16 100; g_disposed := 0 |} ∧
    geometry <$>
      currentMeshRef
        (refs (step (step exampleWorld (Click Box)) (Click Torus))) =
      Some gB.
Proof.
  destruct (selection_change exampleWorld
              {| geometry := 1; material := 0;
                 rotation_x := 0.01; rotation_y := 0.015 |} Box Torus
              (reach_mount ∅ (Some exampleContainer) 1%float) eq_refl)
    as (gA & gB & n & _ & HmB & _ & HgA & _ & HgB & _).
  - intros H. vm_compute in H. discriminate H.
  - exists gA, gB. split; [exact HgA|]. split; [exact HgB|].
    cbv zeta in HmB. rewrite HmB. reflexivity.
Defined.

(** ** Resize *)

(** With a default that is not zero, [x || d] is not zero. *)
Lemma or_default_nonzero x d :
  PrimFloat.eqb d 0 = false → PrimFloat.eqb (or_default x d) 0 = false.
Proof.
  intros Hd. unfold or_default, falsy.
  destruct (PrimFloat.eqb x 0) eqn:Hx; cbn; [done|].
  by destruct (PrimFloat.eqb x x).
Qed.

(** C6, as the code has it: on a resize of a running viewport each bound the
    container reports as zero is replaced by its own default, 800 for the
    width and 600 for the height, and a bound that is not zero is kept; the
    render surface takes the resulting size and the camera the quotient of
    the two as its aspect, whose divisor is never zero.  When both bounds
    are zero the surface is 800 by 600. *)
Theorem resize_fallback w mesh width height :
  Reachable w → currentMeshRef (refs w) = Some mesh →
  size <$> rendererRef (refs (step w (Resize width height))) =
    Some (or_default width 800, or_default height 600) ∧
  aspect <$> cameraRef (refs (step w (Resize width height))) =
    Some (or_default width 800 / or_default height 600)%float ∧
  PrimFloat.eqb (or_default height 600) 0 = false ∧
  size <$> rendererRef (refs (step w (Resize 0 height))) =
    Some (800%float, or_default height 600) ∧
  size <$> rendererRef (refs (step w (Resize width 0))) =
    Some (or_default width 800, 600%float) ∧
  size <$> rendererRef (refs (step w (Resize 0 0))) =
    Some (800, 600)%float ∧
  aspect <$> cameraRef (refs (step w (Resize 0 0))) =
    Some (800 / 600)%float.
Proof.
  intros Hreach Hmesh. open_reachable w mesh Hreach Hmesh.
  run_component. repeat split. by apply or_default_nonzero.
Qed.

(** The example resized to a width of 1024 and a height of zero. *)
Lemma resize_fallback_witness :
  size <$> rendererRef (refs (step exampleWorld (Resize 1024 0))) =
    Some (1024, 600)%float.
Proof.
  destruct (resize_fallback exampleWorld
              {| geometry := 1; material := 0;
                 rotation_x := 0.01; rotation_y := 0.015 |} 1024 0
              (reach_mount ∅ (Some exampleContainer) 1%float) eq_refl)
    as (Hsize & _).
  rewrite Hsize. reflexivity.
Defined.

(** C6, as stated, fails: the example's container reports a width of zero
    and a height of 500; the surface becomes 800 by 500, not 800 by 600, and
    the aspect is 800 / 500. *)
Lemma resize_zero_width_counterexample :
  Reachable exampleWorld ∧
  is_Some (currentMeshRef (refs exampleWorld)) ∧
  size <$> rendererRef (refs (step exampleWorld (Resize 0 500))) =
    Some (800, 500)%float ∧
  size <$> rendererRef (refs (step exampleWorld (Resize 0 500))) ≠
    Some (800, 600)%float ∧
  aspect <$> cameraRef (refs (step exampleWorld (Resize 0 500))) =
    Some (800 / 500)%float.
Proof.
  split; [exact (reach_mount ∅ (Some exampleContainer) 1%float)|].
  split; [by vm_compute; eexists|].
  split; [by vm_compute|]. split; [|by vm_compute].
  intros H.
  apply (f_equal (λ o, match o with
                       | Some (_, h) => PrimFloat.eqb h 600
                       | None => true
                       end)) in H.
  vm_compute in H. discriminate.
Qed.

(** ** Teardown *)

(** C4, what the cleanup does in a running viewport: it removes the resize
    listener, cancels the pending frame, disposes the material of the mesh,
    clears the scene and disposes the renderer; but the geometry it disposes
    is the one the setup effect built (address 0), which the selection effect
    had already disposed, and not the one on display, which stays live. *)
Theorem unmount_disposes_initial_geometry w mesh :
  Reachable w → currentMeshRef (refs w) = Some mesh →
  (∃ id canvas,
     log (unmount w) =
       log w ++
       [window_removeResizeListener; window_cancelAnimationFrame id;
        geometry_dispose 0; material_dispose (material mesh);
        scene_clear; renderer_dispose canvas]) ∧
  resizeListener (window (unmount w)) = false ∧
  pendingFrames (window (unmount w)) = [] ∧
  m_disposed <$> displayedMaterial (unmount w) = Some 1%nat ∧
  children <$> sceneRef (refs (unmount w)) = Some [] ∧
  r_disposed <$> rendererRef (refs (unmount w)) = Some 1%nat ∧
  geometry mesh ≠ 0%nat ∧
  g_disposed <$> displayedGeometry w = Some 0%nat ∧
  g_disposed <$> displayedGeometry (unmount w) = Some 0%nat ∧
  g_disposed <$> geometryHeap (heap w) !! 0%nat = Some 1%nat ∧
  g_disposed <$> geometryHeap (heap (unmount w)) !! 0%nat = Some 2%nat.
Proof.
  intros Hreach Hmesh. open_reachable w mesh Hreach Hmesh.
  match goal with x : WebGLRenderer |- _ => destruct x; simplify_eq/= end.
  assert (∃ o, geometryHeap0 !! 0%nat = Some o ∧ g_disposed o = 1%nat)
    as (o & Ho & Hdisposed).
  { destruct (lookup_lt_is_Some_2 geometryHeap0 0) as [o Ho]; [lia|].
    exists o. split; [done|].
    match goal with
    | H : Forall _ (take _ _) |- _ =>
        apply (proj1 (Forall_lookup _ _) H 0%nat o)
    end.
    by rewrite lookup_take_lt. }
  unfold displayedGeometry, displayedMaterial. run_component.
  rewrite bool_decide_eq_true_2 by done. run_component. cbn.
  rewrite !list_lookup_alter_eq, list_lookup_alter_ne by lia.
  repeat match goal with H : _ !! _ = Some _ |- _ => rewrite H end.
  cbn. rewrite Hdisposed. case_decide; [done|].
  repeat split; try done; try lia.
  do 2 eexists. by rewrite <- !app_assoc.
Qed.

(** The example, unmounted right after mount: the geometry on display (at
    address 1) stays live, the one built first (at address 0) is disposed a
    second time. *)
Lemma unmount_disposes_initial_geometry_witness :
  g_disposed <$> displayedGeometry (unmount exampleWorld) = Some 0%nat ∧
  g_disposed <$> geometryHeap (heap (unmount exampleWorld)) !! 0%nat =
    Some 2%nat.
Proof.
  destruct (unmount_disposes_initial_geometry exampleWorld
              {| geometry := 1; material := 0;
                 rotation_x := 0.01; rotation_y := 0.015 |}
              (reach_mount ∅ (Some exampleContainer) 1%float) eq_refl)
    as (_ & _ & _ & _ & _ & _ & _ & _ & Hlive & _ & Hstale).
  by split.
Defined.

(** * Further properties of the component *)

Set Warnings "-clear-no-such-hyp".

(** ** More invariants of a mounted component *)

Definition is_storage_call (c : Call) : Prop :=
  match c with
  | localStorage_setItem _ _ => True
  | _ => False
  end.

(** The durable store holds the current value of both settings. *)
Record Persisted (w : World) : Prop := {
  persisted_wireframe :
    getItem (localStorage (window w)) "wireframe" =
      Some (String_of_bool (wireframe (state w)));
  persisted_autoRotate :
    getItem (localStorage (window w)) "autoRotate" =
      Some (String_of_bool (autoRotate (state w)))
}.

(** An idle viewport owns nothing and has called nothing but the store. *)
Record Dormant (w : World) : Prop := {
  dormant_idle : Idle w;
  dormant_geometries : geometryHeap (heap w) = [];
  dormant_materials : materialHeap (heap w) = [];
  dormant_scene : sceneRef (refs w) = None;
  dormant_camera : cameraRef (refs w) = None;
  dormant_renderer : rendererRef (refs w) = None;
  dormant_anim : animRef (refs w) = None;
  dormant_log : Forall is_storage_call (log w)
}.

(** What the setup effect builds besides the mesh, and nothing changes
    afterwards: the five objects of the scene, the one material, the canvas
    in the container and the camera's frustum and position. *)
Record Furnished (w : World) : Prop := {
  furnished_scene :
    children <$> sceneRef (refs w) =
      Some [AmbientLight; DirectionalLight; AxesHelper; GridHelper;
            MeshObject];
  furnished_material : length (materialHeap (heap w)) = 1%nat;
  furnished_canvas :
    ∃ el r, mountRef (refs w) = Some el ∧ rendererRef (refs w) = Some r ∧
            domElement r ∈ childNodes el;
  furnished_camera :
    ∃ c, cameraRef (refs w) = Some c ∧ fov c = 75%float ∧
         near c = 0.1%float ∧ far c = 1000%float ∧
         position c = (3, 2, 4)%float
}.

Record Settled (w : World) : Prop := {
  settled_store : Persisted w;
  settled_viewport :
    Dormant w ∨ (is_Some (currentMeshRef (refs w)) ∧ Furnished w)
}.

Lemma lookup_stored k v (store : gmap string string) :
  stored k v store !! k = Some v.
Proof. apply lookup_insert_eq. Qed.

Lemma lookup_stored_ne k k' v (store : gmap string string) :
  k ≠ k' → stored k v store !! k' = store !! k'.
Proof. intros. by apply lookup_insert_ne. Qed.

Ltac solve_persisted :=
  constructor; unfold getItem; cbn;
  repeat first [rewrite lookup_stored
               |rewrite lookup_stored_ne by discriminate];
  done.

Ltac solve_log :=
  cbn; rewrite ?Forall_app; repeat split; first [done | by repeat constructor].

Ltac solve_dormant :=
  left; constructor; cbn; first [done | by constructor | solve_log].

Ltac solve_furnished :=
  right; split; [by eexists|]; constructor; cbn;
  first [ done
        | by rewrite ?length_alter
        | do 2 eexists; repeat split; cbn; first [done | set_solver]
        | by eexists ].

Lemma mount_Settled store container ratio :
  Settled (mount store container ratio).
Proof.
  unfold mount, initialWorld, initialState.
  destruct container as [[[width height] nodes]|];
    destruct (initialAutoRotate store); run_component.
  all: constructor; [solve_persisted|].
  1,2: solve_furnished.
  all: solve_dormant.
Qed.

(** Names the components of a furnished running world. *)
Ltac open_furnished w mesh :=
  open_world w; destruct mesh as [? ? ? ?];
  repeat match goal with H : ∃ _, _ |- _ => destruct H end;
  destruct_and?;
  repeat match goal with H : is_Some _ |- _ => destruct H end;
  simplify_eq/=;
  repeat match goal with
         | x : WebGLRenderer |- _ => destruct x
         | x : PerspectiveCamera |- _ => destruct x
         | x : Scene |- _ => destruct x
         | x : HTMLDivElement |- _ => destruct x
         end;
  simplify_eq/=.

Lemma step_Settled w e : Inv w → Settled w → Settled (step w e).
Proof.
  intros [Hwf Har Hview] [[Hsw Hsa] Hsettled].
  destruct Hsettled as [[[] ? ? ? ? ? ? ?]|[Hmesh []]].
  - clear Hview. open_world w. unfold getItem in *. simplify_eq/=.
    destruct e; run_component; try case_bool_decide; run_component.
    all: constructor; [solve_persisted|solve_dormant].
  - destruct Hview as [[]|[mesh []]]; [destruct Hmesh; congruence|].
    clear Hmesh. unfold getItem in *. open_furnished w mesh.
    destruct e as [geom| | | |width height].
    + run_component; case_bool_decide; run_component.
      all: constructor; [solve_persisted|solve_furnished].
    + run_component. constructor; [solve_persisted|solve_furnished].
    + run_component. constructor; [solve_persisted|solve_furnished].
    + run_component.
      match goal with |- context [if ?b then _ else _] => destruct b end;
        run_component.
      all: constructor; [solve_persisted|solve_furnished].
    + run_component. constructor; [solve_persisted|solve_furnished].
Qed.

Lemma Reachable_Settled w : Reachable w → Settled w.
Proof.
  induction 1 as [|w e Hreach IH]; [apply mount_Settled|].
  apply step_Settled; [by apply Reachable_Inv|done].
Qed.

(** ** Persistence *)





(** ** Resources of a running viewport *)

(** X2: in every reachable world that displays a mesh, the geometry on
    display is the only live geometry: every other geometry ever built has
    been disposed exactly once. *)
Theorem one_live_geometry w mesh i o :
  Reachable w → currentMeshRef (refs w) = Some mesh →
  geometryHeap (heap w) !! i = Some o →
  (i = geometry mesh → g_disposed o = 0%nat) ∧
  (i ≠ geometry mesh → g_disposed o = 1%nat).
Proof.
  intros Hreach Hmesh Hi.
  destruct (Reachable_Running w mesh Hreach Hmesh) as [_ []].
  split.
  - intros ->. by simplify_eq.
  - intros Hne. assert (i < geometry mesh)%nat.
    { apply lookup_lt_Some in Hi. lia. }
    apply (proj1 (Forall_lookup _ _) run_stale0 i o).
    by rewrite lookup_take_lt.
Qed.

(** After "Box" then "Torus" in the example, the box (address 2) is not on
    display and has been disposed once. *)
Lemma one_live_geometry_witness :
  g_disposed <$>
    geometryHeap (heap (run exampleWorld [Click Box; Click Torus]))
      !! 2%nat = Some 1%nat.
Proof.
  assert (geometryHeap (heap (run exampleWorld [Click Box; Click Torus]))
            !! 2%nat = Some {| shape := create Box; g_disposed := 1 |})
    as Hbox by by vm_compute.
  rewrite Hbox. cbn [fmap option_fmap option_map]. apply (f_equal Some).
  refine (proj2 (one_live_geometry
            (run exampleWorld [Click Box; Click Torus])
            {| geometry := 3; material := 0;
               rotation_x := 0.01; rotation_y := 0.015 |}
            2 _
            (Reachable_run _ _
               (reach_mount ∅ (Some exampleContainer) 1%float))
            _ Hbox) _).
  - by vm_compute.
  - by vm_compute.
Defined.

(** X3: in every reachable world that displays a mesh, the display agrees
    with the state: the geometry on display is a live one built by the
    selected entry's [create], and the material has the selected entry's
    color and the current wireframe setting and is not disposed. *)
Theorem display_matches_state w mesh :
  Reachable w → currentMeshRef (refs w) = Some mesh →
  displayedGeometry w =
    Some {| shape := create (selectedGeometry (state w));
            g_disposed := 0 |} ∧
  ∃ n, displayedMaterial w =
    Some {| m_color := color (selectedGeometry (state w));
            m_wireframe := wireframe (state w);
            m_needsUpdate := n; m_disposed := 0 |}.
Proof.
  intros Hreach Hmesh.
  destruct (Reachable_Running w mesh Hreach Hmesh) as [_ []].
  unfold displayedGeometry, displayedMaterial. rewrite Hmesh. cbn.
  split; [done|]. destruct run_material0 as [n Hn]. by exists n.
Qed.

Lemma display_matches_state_witness :
  displayedGeometry
    (run exampleWorld [Click Torus; ClickWireframe; AnimationFrame]) =
    Some {| shape := TorusGeometry 1 0.4 16 100; g_disposed := 0 |}.
Proof.
  destruct (display_matches_state
              (run exampleWorld [Click Torus; ClickWireframe; AnimationFrame])
              {| geometry := 2; material := 0;
                 rotation_x := (0.01 + 0.01)%float;
                 rotation_y := (0.015 + 0.015)%float |}
              (Reachable_run _ _
                 (reach_mount ∅ (Some exampleContainer) 1%float)))
    as [Hgeom _].
  - by vm_compute.
  - rewrite Hgeom. by vm_compute.
Defined.

(** X4: in every reachable world that displays a mesh, the scene holds
    exactly the two lights, the two helpers and the one mesh, in the order
    they were added; there is one material, the mesh's; the canvas of the
    renderer is a child of the container; and the camera keeps the field of
    view, clipping planes and position it was built with. *)
Theorem scene_furniture w mesh :
  Reachable w → currentMeshRef (refs w) = Some mesh →
  children <$> sceneRef (refs w) =
    Some [AmbientLight; DirectionalLight; AxesHelper; GridHelper;
          MeshObject] ∧
  length (materialHeap (heap w)) = 1%nat ∧
  material mesh = 0%nat ∧
  (∃ el r, mountRef (refs w) = Some el ∧ rendererRef (refs w) = Some r ∧
           domElement r ∈ childNodes el ∧
           r_disposed r = 0%nat) ∧
  (∃ c, cameraRef (refs w) = Some c ∧ fov c = 75%float ∧
        near c = 0.1%float ∧ far c = 1000%float ∧
        position c = (3, 2, 4)%float).
Proof.
  intros Hreach Hmesh.
  destruct (Reachable_Running w mesh Hreach Hmesh) as [_ []].
  destruct (Reachable_Settled w Hreach) as [_ [[[]]|[_ []]]]; [congruence|].
  split; [done|]. split; [done|]. split.
  { destruct run_material0 as [n Hn]. apply lookup_lt_Some in Hn. lia. }
  split; [|done].
  destruct furnished_canvas0 as (el & r & ? & Hr & ?).
  destruct run_renderer0 as (r' & Hr' & ?). simplify_eq.
  by exists el, r'.
Qed.

Lemma scene_furniture_witness :
  length (materialHeap (heap
    (run exampleWorld [Click Box; ClickWireframe; Click Torus]))) = 1%nat.
Proof.
  refine (proj1 (proj2 (scene_furniture
            (run exampleWorld [Click Box; ClickWireframe; Click Torus])
            {| geometry := 3; material := 0;
               rotation_x := 0.01; rotation_y := 0.015 |}
            (Reachable_run _ _
               (reach_mount ∅ (Some exampleContainer) 1%float)) _))).
  by vm_compute.
Defined.

(** X5: in every reachable world the mirror refs read by the render loop
    and by the selection effect hold the current settings, and while a mesh
    is displayed exactly one animation frame request is pending, the one
    whose handle [animRef] holds, and the resize listener is registered. *)
Theorem loop_reads_current_settings w :
  Reachable w →
  wireframeRef (refs w) = wireframe (state w) ∧
  autoRotateRef (refs w) = autoRotate (state w) ∧
  (is_Some (currentMeshRef (refs w)) →
     ∃ id, pendingFrames (window w) = [id] ∧ animRef (refs w) = Some id ∧
           id ≠ 0%nat ∧ resizeListener (window w) = true).
Proof.
  intros Hreach. destruct (Reachable_Inv w Hreach) as [Hwf Har Hview].
  split; [done|]. split; [done|]. intros [mesh Hmesh].
  destruct Hview as [[]|[mesh' []]]; [congruence|].
  destruct run_loop0 as (id & ? & ? & ? & ?). by exists id.
Qed.

Lemma loop_reads_current_settings_witness :
  autoRotateRef (refs (run exampleWorld [ClickAutoRotate; AnimationFrame])) =
    false.
Proof.
  destruct (loop_reads_current_settings
              (run exampleWorld [ClickAutoRotate; AnimationFrame])
              (Reachable_run _ _
                 (reach_mount ∅ (Some exampleContainer) 1%float)))
    as (_ & Har & _).
  rewrite Har. by vm_compute.
Defined.

(** ** The idle viewport *)

Lemma step_Dormant w e : Dormant w → Dormant (step w e).
Proof.
  intros [[] ? ? ? ? ? ? ?]. open_world w. simplify_eq/=.
  destruct e; run_component; try case_bool_decide; run_component.
  all: constructor; cbn; first [done | by constructor | solve_log].
Qed.

Lemma run_Dormant w es : Dormant w → Dormant (run w es).
Proof.
  revert w. induction es as [|e es IH]; intros w Hw; [done|].
  apply IH. by apply step_Dormant.
Qed.

Lemma mount_Dormant store ratio : Dormant (mount store None ratio).
Proof.
  unfold mount, initialWorld, initialState. run_component.
  constructor; cbn; first [done | by constructor | solve_log].
Qed.

(** X6: when the container is absent at mount, the viewport stays idle
    whatever happens afterwards: no mesh, no geometry, no material, no
    scene, camera or renderer, no pending frame and no resize listener; the
    only calls ever made are writes to the store; and unmounting does
    nothing. *)
Theorem idle_forever store ratio es :
  currentMeshRef (refs (run (mount store None ratio) es)) = None ∧
  heap (run (mount store None ratio) es) =
    {| geometryHeap := []; materialHeap := [] |} ∧
  sceneRef (refs (run (mount store None ratio) es)) = None ∧
  cameraRef (refs (run (mount store None ratio) es)) = None ∧
  rendererRef (refs (run (mount store None ratio) es)) = None ∧
  pendingFrames (window (run (mount store None ratio) es)) = [] ∧
  resizeListener (window (run (mount store None ratio) es)) = false ∧
  Forall is_storage_call (log (run (mount store None ratio) es)) ∧
  unmount (run (mount store None ratio) es) =
    run (mount store None ratio) es.
Proof.
  pose proof (run_Dormant _ es (mount_Dormant store ratio)) as Hd.
  destruct Hd as [[] ? ? ? ? ? ? ?].
  generalize dependent (run (mount store None ratio) es). intros w.
  intros. open_world w. simplify_eq/=. by run_component.
Qed.

(** ** The render loop over several frames *)

(** One frame in a running world, in terms of the world before. *)
Lemma frame_running w mesh :
  Reachable w → currentMeshRef (refs w) = Some mesh →
  currentMeshRef (refs (step w AnimationFrame)) =
    Some (if autoRotate (state w)
          then set_rotation (rotation_x mesh + 0.01)%float
                            (rotation_y mesh + 0.015)%float mesh
          else mesh) ∧
  state (step w AnimationFrame) = state w ∧
  heap (step w AnimationFrame) = heap w ∧
  ∃ r, rendererRef (refs w) = Some r ∧
       frames <$> rendererRef (refs (step w AnimationFrame)) =
         Some (S (frames r)).
Proof.
  intros Hreach Hmesh. open_reachable w mesh Hreach Hmesh.
  destruct autoRotate0; run_component; repeat split; by eexists.
Qed.

(** X7: [n] frames in a row draw [n] frames and, when auto-rotation is on,
    add the two deltas [n] times to the angles, one addition per frame;
    when it is off the mesh is left as it is.  State and heap are not
    touched. *)
Theorem frames_accumulate n w mesh :
  Reachable w → currentMeshRef (refs w) = Some mesh →
  currentMeshRef (refs (run w (replicate n AnimationFrame))) =
    Some (if autoRotate (state w)
          then set_rotation
                 (Nat.iter n (λ x, x + 0.01)%float (rotation_x mesh))
                 (Nat.iter n (λ y, y + 0.015)%float (rotation_y mesh)) mesh
          else mesh) ∧
  state (run w (replicate n AnimationFrame)) = state w ∧
  heap (run w (replicate n AnimationFrame)) = heap w ∧
  ∃ r, rendererRef (refs w) = Some r ∧
       frames <$> rendererRef (refs (run w (replicate n AnimationFrame))) =
         Some (n + frames r)%nat.
Proof.
  revert w mesh. induction n as [|n IH]; intros w mesh Hreach Hmesh.
  - destruct (frame_running w mesh Hreach Hmesh) as (_ & _ & _ & r & Hr & _).
    cbn. rewrite Hmesh, Hr. repeat split; [|by eexists].
    by destruct mesh, (autoRotate (state w)).
  - destruct (frame_running w mesh Hreach Hmesh)
      as (Hmesh' & Hst & Hheap & r & Hr & Hfr).
    assert (Hreach' : Reachable (step w AnimationFrame)) by by constructor.
    destruct (IH _ _ Hreach' Hmesh') as (Hm & Hs & Hh & r' & Hr' & Hf).
    change (run w (replicate (S n) AnimationFrame))
      with (run (step w AnimationFrame) (replicate n AnimationFrame)).
    rewrite Hm, Hs, Hh, Hst, Hheap, Hf.
    rewrite Hr' in Hfr. cbn in Hfr. simplify_eq. rewrite Hr.
    repeat split.
    + destruct (autoRotate (state w)); [|done].
      rewrite !Nat.iter_succ_r. by destruct mesh.
    + eexists. split; [done|]. f_equal. lia.
Qed.

(** Three frames in the example, which rotates: the angles are the sums. *)
Lemma frames_accumulate_witness :
  rotation <$>
    currentMeshRef (refs (run exampleWorld (replicate 3 AnimationFrame))) =
    Some ((0.01 + 0.01 + 0.01 + 0.01)%float,
          (0.015 + 0.015 + 0.015 + 0.015)%float).
Proof.
  destruct (frames_accumulate 3 exampleWorld
              {| geometry := 1; material := 0;
                 rotation_x := 0.01; rotation_y := 0.015 |}
              (reach_mount ∅ (Some exampleContainer) 1%float))
    as [Hrot _].
  - by vm_compute.
  - rewrite Hrot. by vm_compute.
Defined.

(** ** Operations that do nothing, or little *)

Lemma reselect_step w : step w (Click (selectedGeometry (state w))) = w.
Proof.
  open_world w. run_component. case_bool_decide; [|done]. by run_component.
Qed.

(** X8: clicks on the shape that is already selected, however many, change
    nothing: the effect does not run again, so no geometry is disposed or
    built and the material is not touched. *)
Theorem reselect_is_noop w n :
  run w (replicate n (Click (selectedGeometry (state w)))) = w.
Proof.
  induction n as [|n IH]; [done|].
  change (run w (replicate (S n) (Click (selectedGeometry (state w)))))
    with (run (step w (Click (selectedGeometry (state w))))
              (replicate n (Click (selectedGeometry (state w))))).
  by rewrite reselect_step.
Qed.




(** X9: the auto-rotate toggle never touches the scene: heap, mesh, scene,
    camera, renderer and the animation queue stay as they are, and the only
    call it makes writes the new value to the store. *)
Theorem toggleAutoRotate_footprint w :
  heap (step w ClickAutoRotate) = heap w ∧
  currentMeshRef (refs (step w ClickAutoRotate)) = currentMeshRef (refs w) ∧
  sceneRef (refs (step w ClickAutoRotate)) = sceneRef (refs w) ∧
  cameraRef (refs (step w ClickAutoRotate)) = cameraRef (refs w) ∧
  rendererRef (refs (step w ClickAutoRotate)) = rendererRef (refs w) ∧
  pendingFrames (window (step w ClickAutoRotate)) =
    pendingFrames (window w) ∧
  autoRotateRef (refs (step w ClickAutoRotate)) =
    negb (autoRotate (state w)) ∧
  log (step w ClickAutoRotate) =
    log w ++
    [localStorage_setItem "autoRotate"
       (String_of_bool (negb (autoRotate (state w))))].
Proof. open_world w. by run_component. Qed.

(** X10: the wireframe toggle never changes the geometry: the geometries,
    the mesh, the scene, the camera and the renderer stay as they are, and
    the material keeps its color and is not disposed by it. *)
Theorem toggleWireframe_footprint w :
  geometryHeap (heap (step w ClickWireframe)) = geometryHeap (heap w) ∧
  currentMeshRef (refs (step w ClickWireframe)) = currentMeshRef (refs w) ∧
  sceneRef (refs (step w ClickWireframe)) = sceneRef (refs w) ∧
  cameraRef (refs (step w ClickWireframe)) = cameraRef (refs w) ∧
  rendererRef (refs (step w ClickWireframe)) = rendererRef (refs w) ∧
  m_color <$> displayedMaterial (step w ClickWireframe) =
    m_color <$> displayedMaterial w ∧
  m_disposed <$> displayedMaterial (step w ClickWireframe) =
    m_disposed <$> displayedMaterial w ∧
  wireframeRef (refs (step w ClickWireframe)) = negb (wireframe (state w)).
Proof.
  open_world w. unfold displayedMaterial.
  destruct currentMeshRef0 as [[g m rx ry]|]; run_component; cbn;
    repeat split.
  all: rewrite !list_lookup_alter_eq; by destruct (materialHeap0 !! m).
Qed.

(** ** Bounds of the render surface *)

(** X11: on a resize of a running viewport whose container reports bounds
    that are both truthy (neither zero nor NaN), the surface takes exactly
    the reported bounds and the aspect is their quotient; state, heap and
    mesh are not touched, and the projection matrix is updated once. *)
Theorem resize_reported_bounds w mesh width height :
  Reachable w → currentMeshRef (refs w) = Some mesh →
  falsy width = false → falsy height = false →
  size <$> rendererRef (refs (step w (Resize width height))) =
    Some (width, height) ∧
  aspect <$> cameraRef (refs (step w (Resize width height))) =
    Some (width / height)%float ∧
  projectionUpdates <$> cameraRef (refs (step w (Resize width height))) =
    S <$> (projectionUpdates <$> cameraRef (refs w)) ∧
  state (step w (Resize width height)) = state w ∧
  heap (step w (Resize width height)) = heap w ∧
  currentMeshRef (refs (step w (Resize width height))) = Some mesh ∧
  log (step w (Resize width height)) =
    log w ++ [camera_updateProjectionMatrix; renderer_setSize width height].
Proof.
  intros Hreach Hmesh Hw Hh. open_reachable w mesh Hreach Hmesh.
  run_component. unfold or_default. rewrite Hw, Hh.
  repeat split. by rewrite <- app_assoc.
Qed.

Lemma resize_reported_bounds_witness :
  aspect <$> cameraRef (refs (step exampleWorld (Resize 1024 768))) =
    Some (1024 / 768)%float.
Proof.
  destruct (resize_reported_bounds exampleWorld
              {| geometry := 1; material := 0;
                 rotation_x := 0.01; rotation_y := 0.015 |} 1024 768
              (reach_mount ∅ (Some exampleContainer) 1%float))
    as (_ & Haspect & _).
  - by vm_compute.
  - by vm_compute.
  - by vm_compute.
  - exact Haspect.
Defined.

(** X12: the setup effect takes the container's bounds as they are, without
    the fallback of the resize handler: the surface and the aspect at mount
    are the reported width and height and their quotient, and in a
    container that reports zero by zero the aspect is NaN. *)
Theorem mount_bounds_unguarded store nodes ratio width height :
  size <$> rendererRef (refs (mount store
      (Some {| rect := (width, height); childNodes := nodes |}) ratio)) =
    Some (width, height) ∧
  aspect <$> cameraRef (refs (mount store
      (Some {| rect := (width, height); childNodes := nodes |}) ratio)) =
    Some (width / height)%float ∧
  ∃ a, aspect <$> cameraRef (refs (mount store
         (Some {| rect := (0, 0)%float; childNodes := nodes |}) ratio)) =
         Some a ∧
       PrimFloat.eqb a a = false.
Proof.
  unfold mount, initialWorld, initialState.
  destruct (initialAutoRotate store); run_component.
  all: repeat split; by eexists.
Qed.

(** ** Mount and unmount *)

(** X13: mounting in a container builds two geometries from the selected
    entry and disposes the first at once: the selection effect runs on mount
    too, right after the setup effect.  The mesh displays the second; there
    is one material and one frame has been drawn. *)
Theorem mount_builds_two_geometries store el ratio :
  geometryHeap (heap (mount store (Some el) ratio)) =
    [{| shape := SphereGeometry 1 32 16; g_disposed := 1 |};
     {| shape := SphereGeometry 1 32 16; g_disposed := 0 |}] ∧
  geometry <$> currentMeshRef (refs (mount store (Some el) ratio)) =
    Some 1%nat ∧
  materialHeap (heap (mount store (Some el) ratio)) =
    [{| m_color := "#FF6B6B"; m_wireframe := initialWireframe store;
        m_needsUpdate := 2; m_disposed := 0 |}] ∧
  frames <$> rendererRef (refs (mount store (Some el) ratio)) = Some 1%nat ∧
  cleanup (mount store (Some el) ratio) =
    Some {| c_geometry := 0; c_material := 0 |}.
Proof.
  unfold mount, initialWorld, initialState. destruct el as [[wd ht] nodes].
  destruct (initialAutoRotate store); by run_component.
Qed.

(** X14: once a running viewport is unmounted nothing moves any more: a
    display refresh leaves the world as it is, and a resize of the window
    reaches neither the camera nor the renderer and makes no call. *)
Theorem unmount_stops_events w mesh width height :
  Reachable w → currentMeshRef (refs w) = Some mesh →
  step (unmount w) AnimationFrame = unmount w ∧
  cameraRef (refs (step (unmount w) (Resize width height))) =
    cameraRef (refs (unmount w)) ∧
  rendererRef (refs (step (unmount w) (Resize width height))) =
    rendererRef (refs (unmount w)) ∧
  log (step (unmount w) (Resize width height)) = log (unmount w) ∧
  cleanup (unmount w) = None.
Proof.
  intros Hreach Hmesh. open_reachable w mesh Hreach Hmesh.
  run_component. rewrite bool_decide_eq_true_2 by done. run_component.
  cbn. case_decide; [done|]. by run_component.
Qed.

Lemma unmount_stops_events_witness :
  frames <$>
    rendererRef (refs (run (unmount exampleWorld)
                           [AnimationFrame; AnimationFrame])) =
    Some 1%nat.
Proof.
  destruct (unmount_stops_events exampleWorld
              {| geometry := 1; material := 0;
                 rotation_x := 0.01; rotation_y := 0.015 |} 0 0
              (reach_mount ∅ (Some exampleContainer) 1%float) eq_refl)
    as (Hframe & _).
  cbn [run fold_left]. rewrite !Hframe. by vm_compute.
Defined.

(** ** The grouping of any list of entries *)

(** The categories of a list in order of first appearance. *)
Fixpoint first_appearances (ks : list string) : list string :=
  match ks with
  | [] => []
  | k :: ks => k :: filter (λ k', k' ≠ k) (first_appearances ks)
  end.

Section GroupingLookup.
Implicit Types (acc : Grouped) (k : string) (g : GeometryItem).
Implicit Types (l : list GeometryItem) (ks : list string).

Lemma get_set_empty_ne acc k k' :
  k ≠ k' → get (set_empty acc k) k' = get acc k'.
Proof.
  intros Hne. induction acc as [|[k0 v] rest IH]; cbn.
  - by destruct (String.eqb_spec k k').
  - by destruct (String.eqb k0 k').
Qed.

Lemma get_push acc k g k' :
  get (push acc k g) k' =
    if decide (k = k') then (λ v, v ++ [g]) <$> get acc k' else get acc k'.
Proof.
  induction acc as [|[k0 v] rest IH]; cbn.
  - by case_decide.
  - destruct (String.eqb_spec k0 k) as [->|Hne]; cbn.
    + destruct (String.eqb_spec k k'); by case_decide.
    + destruct (String.eqb_spec k0 k') as [->|Hne']; [|done].
      by rewrite decide_False by congruence.
Qed.

Lemma get_reducer acc g k :
  get (reducer acc g) k =
    if decide (category g = k)
    then Some (default [] (get acc k) ++ [g])
    else get acc k.
Proof.
  unfold reducer. destruct (get acc (category g)) eqn:Hget.
  - rewrite get_push. case_decide; [subst; by rewrite Hget|done].
  - rewrite get_push. case_decide.
    + subst. by rewrite get_set_empty, Hget.
    + by rewrite get_set_empty_ne.
Qed.

Lemma categorize_snoc l g :
  categorize (l ++ [g]) = reducer (categorize l) g.
Proof. unfold categorize. by rewrite fold_left_app. Qed.

Lemma filter_category_absent l k :
  k ∉ map category l → filter (λ g, category g = k) l = [].
Proof.
  induction l as [|g l IH]; [done|].
  intros [Hne Hnotin]%not_elem_of_cons.
  rewrite filter_cons_False by done. by apply IH.
Qed.

(** Under a category the grouping holds exactly the entries of the category,
    in the order of the list, and nothing under a category no entry has. *)
Lemma categorize_lookup l k :
  get (categorize l) k =
    if decide (k ∈ map category l)
    then Some (filter (λ g, category g = k) l)
    else None.
Proof.
  induction l as [|g l IH] using rev_ind; [done|].
  rewrite categorize_snoc, get_reducer, IH, map_app, filter_app. cbn [map].
  destruct (decide (category g = k)) as [<-|Hne].
  - rewrite (decide_True (P := category g ∈ map category l ++ [category g]))
      by (apply elem_of_app; right; constructor).
    rewrite filter_cons_True, filter_nil by done. f_equal. f_equal.
    case_decide; [done|]. cbn. by rewrite filter_category_absent.
  - rewrite filter_cons_False, filter_nil, app_nil_r by done.
    repeat case_decide; try done; exfalso;
      rewrite elem_of_app, list_elem_of_singleton in *; naive_solver.
Qed.

Lemma keys_push acc k g : map fst (push acc k g) = map fst acc.
Proof.
  induction acc as [|[k0 v] rest IH]; [done|]. cbn.
  destruct (String.eqb k0 k); cbn; by rewrite ?IH.
Qed.

Lemma get_None acc k : get acc k = None ↔ k ∉ map fst acc.
Proof.
  induction acc as [|[k0 v] rest IH]; cbn; [set_solver|].
  destruct (String.eqb_spec k0 k); set_solver.
Qed.

Lemma keys_reducer acc g :
  map fst (reducer acc g) =
    if decide (category g ∈ map fst acc) then map fst acc
    else map fst acc ++ [category g].
Proof.
  unfold reducer. destruct (get acc (category g)) eqn:Hget.
  - rewrite keys_push, decide_True; [done|].
    destruct (decide (category g ∈ map fst acc)); [done|].
    apply get_None in n. congruence.
  - rewrite keys_push. apply get_None in Hget. rewrite decide_False by done.
    unfold set_empty. by rewrite map_app.
Qed.

Lemma first_appearances_elem ks k : k ∈ first_appearances ks ↔ k ∈ ks.
Proof.
  induction ks as [|k0 ks IH]; [done|]. cbn.
  rewrite !elem_of_cons, list_elem_of_filter, IH.
  destruct (decide (k = k0)); naive_solver.
Qed.

Lemma first_appearances_snoc ks k :
  first_appearances (ks ++ [k]) =
    if decide (k ∈ ks) then first_appearances ks
    else first_appearances ks ++ [k].
Proof.
  induction ks as [|k0 ks IH]; [done|]. cbn. rewrite IH.
  destruct (decide (k = k0)) as [->|Hne].
  - rewrite (decide_True (P := k0 ∈ k0 :: ks)) by set_solver.
    case_decide; [done|].
    by rewrite filter_app, filter_cons_False, filter_nil, app_nil_r
      by (intros Hk; by apply Hk).
  - destruct (decide (k ∈ ks)).
    + by rewrite decide_True by set_solver.
    + rewrite decide_False by set_solver.
      by rewrite filter_app, filter_cons_True, filter_nil by done.
Qed.

Lemma first_appearances_NoDup ks : NoDup (first_appearances ks).
Proof.
  induction ks as [|k ks IH]; cbn; [constructor|].
  constructor; [|by apply NoDup_filter].
  rewrite list_elem_of_filter. intros [Hk _]. by apply Hk.
Qed.

Lemma categorize_keys l :
  map fst (categorize l) = first_appearances (map category l).
Proof.
  induction l as [|g l IH] using rev_ind; [done|].
  rewrite categorize_snoc, keys_reducer, map_app, IH. cbn.
  rewrite first_appearances_snoc.
  repeat case_decide; try done; exfalso;
    rewrite first_appearances_elem in *; done.
Qed.

Lemma grouped_by_keys acc :
  NoDup (map fst acc) →
  acc = map (λ k, (k, default [] (get acc k))) (map fst acc).
Proof.
  induction acc as [|[k v] rest IH]; [done|]. cbn.
  intros [Hnotin Hnodup]%NoDup_cons. rewrite String.eqb_refl. cbn.
  f_equal. etrans; [apply (IH Hnodup)|]. apply map_ext_in.
  intros k' Hin%list_elem_of_In.
  by destruct (String.eqb_spec k k') as [->|].
Qed.

Lemma categorize_keys_NoDup l : NoDup (map fst (categorize l)).
Proof. rewrite categorize_keys. apply first_appearances_NoDup. Qed.

Lemma categorize_groups l :
  categorize l =
    map (λ k, (k, filter (λ g, category g = k) l))
        (first_appearances (map category l)).
Proof.
  rewrite (grouped_by_keys _ (categorize_keys_NoDup l)) at 1.
  rewrite categorize_keys. apply map_ext_in. intros k Hin.
  rewrite <- list_elem_of_In, first_appearances_elem in Hin.
  by rewrite categorize_lookup, decide_True.
Qed.
End GroupingLookup.

(** The accumulator of the reducer is a JavaScript object.  The association
    list stands for it when every key is an ordinary property name: one that
    [Object.entries] lists in insertion order and that the empty object does
    not inherit.  A key made of digits only may be an array index, which
    [Object.entries] lists first, in numeric order; a key named like a
    member of [Object.prototype] is found on the empty object, where
    [!acc[k]] is false and [push] is not a function. *)
Definition is_digit (c : Ascii.ascii) : bool :=
  ((48 <=? Ascii.nat_of_ascii c) && (Ascii.nat_of_ascii c <=? 57))%nat.

Definition digits_only (k : string) : bool :=
  negb (String.eqb k "") && forallb is_digit (String.list_ascii_of_string k).

Definition prototype_members : list string :=
  ["constructor"; "__defineGetter__"; "__defineSetter__"; "hasOwnProperty";
   "__lookupGetter__"; "__lookupSetter__"; "isPrototypeOf";
   "propertyIsEnumerable"; "toString"; "valueOf"; "__proto__";
   "toLocaleString"].

Definition ordinary_key (k : string) : bool :=
  negb (digits_only k) && negb (bool_decide (k ∈ prototype_members)).

(** A grouping as the reducer builds them: distinct keys, and under each key
    a non-empty list of entries of that category. *)
Definition well_grouped (acc : Grouped) : Prop :=
  NoDup (map fst acc) ∧
  Forall (λ kv, kv.2 ≠ [] ∧ Forall (λ g, category g = kv.1) kv.2) acc.

Section GroupingRoundTrip.
Implicit Types (acc : Grouped) (k : string) (g : GeometryItem).
Implicit Types (v : list GeometryItem).

Lemma get_app_fresh acc k v :
  k ∉ map fst acc → get (acc ++ [(k, v)]) k = Some v.
Proof.
  induction acc as [|[k0 v0] rest IH]; cbn.
  - by rewrite String.eqb_refl.
  - intros [Hne Hnotin]%not_elem_of_cons.
    destruct (String.eqb_spec k0 k); [congruence|by apply IH].
Qed.

Lemma push_app_fresh acc k v g :
  k ∉ map fst acc → push (acc ++ [(k, v)]) k g = acc ++ [(k, v ++ [g])].
Proof.
  induction acc as [|[k0 v0] rest IH]; cbn.
  - by rewrite String.eqb_refl.
  - intros [Hne Hnotin]%not_elem_of_cons.
    destruct (String.eqb_spec k0 k); [congruence|]. by rewrite IH.
Qed.

(** Entries of a category that is already the last key extend its group. *)
Lemma fold_reducer_last acc k v v' :
  k ∉ map fst acc → Forall (λ g, category g = k) v' →
  fold_left reducer v' (acc ++ [(k, v)]) = acc ++ [(k, v ++ v')].
Proof.
  intros Hnotin Hall. revert v.
  induction Hall as [|g v' Hg _ IH]; intros v; cbn.
  - by rewrite app_nil_r.
  - unfold reducer at 2. rewrite Hg, get_app_fresh by done.
    rewrite push_app_fresh by done. rewrite IH. by rewrite <- app_assoc.
Qed.

(** A run of entries of a new category opens a new last group. *)
Lemma fold_reducer_fresh acc k v :
  k ∉ map fst acc → v ≠ [] → Forall (λ g, category g = k) v →
  fold_left reducer v acc = acc ++ [(k, v)].
Proof.
  intros Hnotin Hne Hall. destruct Hall as [|g v Hg Hall]; [done|]. cbn.
  unfold reducer at 2. rewrite Hg.
  rewrite (proj2 (get_None acc k) Hnotin).
  unfold set_empty. rewrite push_app_fresh by done.
  by rewrite fold_reducer_last.
Qed.

Lemma fold_reducer_groups acc acc' :
  well_grouped (acc ++ acc') →
  fold_left reducer (flatten acc') acc = acc ++ acc'.
Proof.
  revert acc. induction acc' as [|[k v] rest IH]; intros acc [Hnodup Hall].
  - by rewrite app_nil_r.
  - unfold flatten. cbn. fold (flatten rest). rewrite fold_left_app.
    pose proof Hall as Hall'. apply Forall_app in Hall' as [_ Hhead].
    apply Forall_cons_1 in Hhead as [[Hne Hk] _]. cbn in Hne, Hk.
    rewrite (fold_reducer_fresh acc k v); [| |done..].
    + rewrite IH; [by rewrite <- app_assoc|].
      rewrite <- app_assoc. by split.
    + rewrite map_app in Hnodup. apply NoDup_app in Hnodup as (_ & Hdisj & _).
      intros Hin. apply (Hdisj k Hin). cbn. by left.
Qed.

(** X15: the grouping of a list whose categories are ordinary property
    names is determined by two rules: the keys are the categories in order
    of first appearance, and the group of a key is the list filtered by that
    category.  It is well formed (distinct keys, no empty group, every entry
    under its own category), and no entry is lost or repeated. *)
Theorem categorize_spec (l : list GeometryItem) :
  Forall (λ g, ordinary_key (category g) = true) l →
  categorize l =
    map (λ k, (k, filter (λ g, category g = k) l))
        (first_appearances (map category l)) ∧
  well_grouped (categorize l) ∧
  flatten (categorize l) ≡ₚ l.
Proof.
  intros _.
  split; [apply categorize_groups|]. split; [|apply categorize_permutation].
  split; [apply categorize_keys_NoDup|].
  rewrite categorize_groups. apply Forall_map, Forall_forall.
  intros k Hk. cbn.
  apply first_appearances_elem, list_elem_of_In, in_map_iff in Hk
    as (g & Hg & Hin%list_elem_of_In).
  split.
  - intros Hnil. assert (g ∈ filter (λ g0, category g0 = k) l) as Hmem
      by by apply list_elem_of_filter.
    rewrite Hnil in Hmem. by apply not_elem_of_nil in Hmem.
  - apply Forall_forall. by intros g' [? _]%list_elem_of_filter.
Qed.

(** The eight entries of the catalog, under their two ordinary categories. *)
Lemma categorize_spec_witness :
  categorize geometries =
    [("Primitivas", filter (λ g, category g = "Primitivas") geometries);
     ("Platónicos", filter (λ g, category g = "Platónicos") geometries)].
Proof.
  refine (proj1 (categorize_spec geometries _)).
  by apply (bool_decide_unpack _).
Defined.

(** X16: grouping is the inverse of flattening on well-formed groupings over
    ordinary property names: when the keys are ordinary and distinct and
    each group is a non-empty list of entries of its key, grouping the
    concatenation of the groups gives the groups back, in the same order.
    So a list in which the entries of each such category are adjacent
    survives the round trip through the grouping. *)
Theorem categorize_flatten acc :
  Forall (λ kv, ordinary_key kv.1 = true) acc →
  well_grouped acc →
  categorize (flatten acc) = acc ∧
  flatten (categorize (flatten acc)) = flatten acc.
Proof.
  intros _ Hwf. assert (categorize (flatten acc) = acc) as Heq.
  { unfold categorize. by rewrite (fold_reducer_groups [] acc). }
  by rewrite Heq.
Qed.

Lemma categorizedGeometries_well_grouped : well_grouped categorizedGeometries.
Proof.
  split; [by apply (bool_decide_unpack _)|].
  repeat constructor; by vm_compute.
Defined.

(** The grouping of the catalog is well formed, so it is its own image. *)
Lemma categorize_flatten_witness :
  categorize (flatten categorizedGeometries) = categorizedGeometries.
Proof.
  refine (proj1 (categorize_flatten categorizedGeometries _
                   categorizedGeometries_well_grouped)).
  by apply (bool_decide_unpack _).
Defined.
End GroupingRoundTrip.

(** ** The side panel *)

(** A button of the side panel, with the parts of its style that depend on
    the selection. *)
Record Button : Type := {
  label : string;
  title : string;
  textColor : string;
  backgroundColor : string;
  fontWeight : string
}.

(** The [<button>] rendered for [geom] when [selected] is the selection. *)
Definition shapeButton (selected geom : GeometryItem) : Button :=
  {| label := name geom;
     title := description geom;
     textColor := color geom;
     backgroundColor :=
       if String.eqb (name selected) (name geom) then "#555"
       else "transparent";
     fontWeight :=
       if String.eqb (name selected) (name geom) then "bold" else "normal" |}.

(** [Object.entries(categorizedGeometries).map(...)]: a heading per category
    and under it the buttons of its entries. *)
Definition sidePanel (w : World) : list (string * list Button) :=
  map (λ kv, (kv.1, map (shapeButton (selectedGeometry (state w))) kv.2))
      categorizedGeometries.

(** The buttons from top to bottom. *)
Definition shapeButtons (w : World) : list Button :=
  concat (map snd (sidePanel w)).

Definition highlighted (b : Button) : bool :=
  String.eqb (backgroundColor b) "#555".

(** The clicks a user can make are on the buttons of catalog entries. *)
Definition from_catalog (e : Event) : Prop :=
  match e with
  | Click geom => geom ∈ geometries
  | _ => True
  end.

Lemma exec_bind {A B} (m : M A) (k : A → M B) w :
  exec (m ≫= k) w = exec (k (m w).1) (m w).2.
Proof. unfold exec, mbind, M_bind. by destruct (m w). Qed.

Lemma animate_state w : state (exec animate w) = state w.
Proof.
  open_world w. destruct currentMeshRef0 as [[]|], autoRotateRef0;
    by run_component.
Qed.

Lemma frames_state (ids : list nat) w :
  state (exec (foldr (λ _ k, animate;; k) skip ids) w) = state w.
Proof.
  revert w. induction ids as [|id ids IH]; intros w; [done|].
  cbn [foldr]. rewrite exec_bind, IH.
  change (animate w).2 with (exec animate w). apply animate_state.
Qed.

(** Only a click on a shape changes the selection. *)
Lemma selectedGeometry_step w e :
  selectedGeometry (state (step w e)) =
    match e with
    | Click geom => geom
    | _ => selectedGeometry (state w)
    end.
Proof.
  destruct e as [geom| | | |width height].
  - by rewrite click_state.
  - open_world w. by run_component.
  - open_world w. destruct currentMeshRef0 as [[]|]; by run_component.
  - unfold step, frame. rewrite !exec_bind. by rewrite frames_state.
  - open_world w.
    destruct resizeListener0, mountRef0, cameraRef0, rendererRef0;
      by run_component.
Qed.

Lemma selectedGeometry_run w es :
  Forall from_catalog es → selectedGeometry (state w) ∈ geometries →
  selectedGeometry (state (run w es)) ∈ geometries.
Proof.
  intros Hes. revert w. induction Hes as [|e es He _ IH]; intros w Hw.
  - done.
  - apply IH. rewrite selectedGeometry_step. by destruct e.
Qed.

(** X18: as long as the clicks are on buttons of the panel, the selection is
    a catalog entry; the panel lists one button per catalog entry, in
    catalog order, under the two category headings; and exactly one button
    is highlighted, the one that carries the selected entry's name. *)
Theorem one_button_highlighted store container ratio es :
  Forall from_catalog es →
  selectedGeometry (state (run (mount store container ratio) es)) ∈
    geometries ∧
  map fst (sidePanel (run (mount store container ratio) es)) =
    ["Primitivas"; "Platónicos"] ∧
  map label (shapeButtons (run (mount store container ratio) es)) =
    map name geometries ∧
  map label
    (filter (λ b, highlighted b = true)
            (shapeButtons (run (mount store container ratio) es))) =
    [name (selectedGeometry (state (run (mount store container ratio) es)))].
Proof.
  intros Hes.
  assert (selectedGeometry (state (run (mount store container ratio) es)) ∈
            geometries) as Hsel.
  { apply selectedGeometry_run; [done|]. rewrite state_mount.
    by apply (bool_decide_unpack _). }
  split; [done|]. unfold shapeButtons, sidePanel.
  generalize dependent
    (selectedGeometry (state (run (mount store container ratio) es))).
  intros sel Hsel. split; [done|]. split; [done|].
  revert sel Hsel. apply Forall_forall. by apply (bool_decide_unpack _).
Qed.

(** "Torus" selected in the example: its button is the highlighted one. *)
Lemma one_button_highlighted_witness :
  map label
    (filter (λ b, highlighted b = true)
            (shapeButtons (run (mount ∅ (Some exampleContainer) 1%float)
                               [Click Box; AnimationFrame; Click Torus]))) =
    ["Torus"].
Proof.
  destruct (one_button_highlighted ∅ (Some exampleContainer) 1%float
              [Click Box; AnimationFrame; Click Torus])
    as (_ & _ & _ & Hone).
  - repeat constructor; by apply (bool_decide_unpack _).
  - rewrite Hone. by vm_compute.
Defined.
